(** * go-protoc-wasi: the host/guest bridge of [protoc.go]

    A shallow embedding of the bridge that drives a protoc WASI reactor:
    the memory helpers ([allocBytes], [allocString], [allocArgv],
    [freePtr], [writePtr], [writeUint32]), the lifecycle methods
    ([Init], [Run], [Close]), the plugin callback
    ([hostPluginCommunicate]) and the default plugin handler.

    The sandbox engine, the guest and the operating system are outside
    the repository.  They are kept abstract: a type [S] of external
    states, and the guest exports, the linear memory and the module as
    records of state transformers over [S].  Every call the bridge makes
    to them is recorded, with its answer, in a trace of events; the
    properties of the bridge are properties of these traces. *)

From Stdlib Require Import ZArith List Bool Lia Permutation.
From Stdlib.Strings Require Import String Byte.
Import ListNotations.
Open Scope Z_scope.

(** ** Go values *)

(** A Go [error] is represented by its [Error()] text. *)
Definition error := string.

(** [uint32(x)] and [int32(x)] of a 64-bit word. *)
Definition uint32 (x : Z) : Z := x mod 2 ^ 32.

Definition int32 (x : Z) : Z :=
  let u := x mod 2 ^ 32 in if u <? 2 ^ 31 then u else u - 2 ^ 32.

(** [api.EncodeI32(v)] is [uint64(uint32(v))]. *)
Definition EncodeI32 (v : Z) : Z := uint32 v.

Definition byte_of_Z (z : Z) : byte :=
  match Byte.of_N (Z.to_N (z mod 256)) with
  | Some b => b
  | None => x00
  end.

(** [binary.LittleEndian.PutUint32] on a fresh 4-byte slice. *)
Definition PutUint32 (v : Z) : list byte :=
  [byte_of_Z v; byte_of_Z (Z.shiftr v 8);
   byte_of_Z (Z.shiftr v 16); byte_of_Z (Z.shiftr v 24)].

(** [len] of a slice or string, as a Go [int]. *)
Definition len {A} (l : list A) : Z := Z.of_nat (List.length l).

Definition strlen (s : string) : Z := Z.of_nat (String.length s).

(** ** Events: what the bridge asks of the outside world *)

Inductive event : Type :=
| EvMalloc (size : Z) (res : Z + error)
| EvFree (ptr : Z) (err : option error)
| EvWrite (offset : Z) (data : list byte) (ok : bool)
| EvInit (res : Z + error)
| EvRun (argc argv : Z) (res : Z + error)
| EvDestroy (err : option error)
| EvModClose (err : option error)
| EvCommunicate (program : string) (searchPath : bool) (input : list byte)
                (res : list byte * option error).

(** The result of a computation: a value, or a Go run-time panic. *)
Inductive outcome (A : Type) : Type :=
| Done (a : A)
| Panic (msg : string).
Arguments Done {A} a.
Arguments Panic {A} msg.

Section Bridge.

Context {Ctx S : Type}.

(** ** The bridge monad: external state and emitted events *)

Definition M (A : Type) : Type := S -> outcome A * S * list event.

Definition ret {A} (a : A) : M A := fun s => (Done a, s, []).

Definition bind {A B} (m : M A) (f : A -> M B) : M B :=
  fun s =>
    match m s with
    | (Done a, s1, t1) =>
        match f a s1 with
        | (o, s2, t2) => (o, s2, t1 ++ t2)
        end
    | (Panic msg, s1, t1) => (Panic msg, s1, t1)
    end.

Definition panic {A} (msg : string) : M A := fun s => (Panic msg, s, []).

(** One call to the outside world, logged with its answer. *)
Definition call {A} (f : S -> A * S) (ev : A -> event) : M A :=
  fun s => match f s with (a, s1) => (Done a, s1, [ev a]) end.

(** A query that does not change the external state and is not logged. *)
Definition ask {A} (f : S -> A) : M A := fun s => (Done (f s), s, []).

Notation "x <- m ;; k" := (bind m (fun x => k))
  (at level 100, m at next level, right associativity).
Notation "m ;;; k" := (bind m (fun _ => k))
  (at level 100, right associativity).

(** ** The engine's interfaces, as the bridge uses them *)

(** [api.Memory]: [Read(offset, byteCount)] and [Write(offset, data)]. *)
Record Memory : Type := {
  Read : Z -> Z -> S -> option (list byte);
  Write : Z -> list byte -> S -> bool * S
}.

(** [api.Module]: [Memory()] and [Close(ctx)]. *)
Record Module : Type := {
  ModMemory : Memory;
  ModClose : Ctx -> S -> option error * S
}.

(** The [PluginHandler] interface.  [Communicate] returns Go's pair
    of output bytes and error. *)
Record PluginHandler : Type := {
  Communicate :
    Ctx -> string -> bool -> list byte -> S -> (list byte * option error) * S
}.

(** The [Protoc] struct.  The exports are [api.Function] values; a call
    answers its single result word or an error ([inl] and [inr]).  The
    two fields that [Close] compares with nil are options.  The mutex
    is not modelled: the embedding is sequential. *)
Record Protoc : Type := {
  mod_ : option Module;
  malloc : Ctx -> Z -> S -> (Z + error) * S;
  free : Ctx -> Z -> S -> option error * S;
  protocInit : Ctx -> S -> (Z + error) * S;
  protocRun : Ctx -> Z -> Z -> S -> (Z + error) * S;
  protocDestroy : option (Ctx -> S -> option error * S);
  pluginHandler : PluginHandler;
  initialized : bool
}.

Definition set_initialized (b : bool) (p : Protoc) : Protoc :=
  {| mod_ := mod_ p; malloc := malloc p; free := free p;
     protocInit := protocInit p; protocRun := protocRun p;
     protocDestroy := protocDestroy p; pluginHandler := pluginHandler p;
     initialized := b |}.

(** ** Memory helpers *)

(** [mem.Write(offset, data)], result kept. *)
Definition memWrite (mem : Memory) (offset : Z) (data : list byte) : M bool :=
  call (Write mem offset data) (EvWrite offset data).

(** [p.mod.Memory()]; a nil module is a nil dereference. *)
Definition modMemory (p : Protoc) : M Memory :=
  match mod_ p with
  | Some m => ret (ModMemory m)
  | None => panic "nil pointer dereference"
  end.

Definition freePtr (p : Protoc) (ctx : Ctx) (ptr : Z) : M unit :=
  if negb (ptr =? 0) then
    _ <- call (free p ctx ptr) (EvFree ptr) ;; ret tt
  else ret tt.

Definition allocBytes (p : Protoc) (ctx : Ctx) (data : list byte)
  : M (Z * option error) :=
  r <- call (malloc p ctx (len data)) (EvMalloc (len data)) ;;
  match r with
  | inr err => ret (0, Some err)
  | inl res =>
      let ptr := uint32 res in
      if ptr =? 0 then ret (0, Some "malloc returned null"%string)
      else
        mem <- modMemory p ;;
        ok <- memWrite mem ptr data ;;
        if negb ok then
          _ <- call (free p ctx ptr) (EvFree ptr) ;;
          ret (0, Some "failed to write to memory"%string)
        else ret (ptr, None)
  end.

Definition allocString (p : Protoc) (ctx : Ctx) (s : string)
  : M (Z * option error) :=
  allocBytes p ctx (list_byte_of_string s ++ [x00]).

(** The loop of [allocArgv]: [i] is the index of the head of [ptrs]. *)
Fixpoint writeArgv (p : Protoc) (argvPtr : Z) (i : Z) (ptrs : list Z)
  : M unit :=
  match ptrs with
  | [] => ret tt
  | ptr :: rest =>
      mem <- modMemory p ;;
      _ <- memWrite mem (uint32 (argvPtr + uint32 (i * 4))) (PutUint32 ptr) ;;
      writeArgv p argvPtr (i + 1) rest
  end.

Definition allocArgv (p : Protoc) (ctx : Ctx) (ptrs : list Z)
  : M (Z * option error) :=
  let size := len ptrs * 4 in
  r <- call (malloc p ctx size) (EvMalloc size) ;;
  match r with
  | inr err => ret (0, Some err)
  | inl res =>
      let argvPtr := uint32 res in
      if argvPtr =? 0 then
        ret (0, Some "malloc returned null for argv"%string)
      else
        writeArgv p argvPtr 0 ptrs ;;;
        ret (argvPtr, None)
  end.

Definition writePtr (mem : Memory) (addr value : Z) : M unit :=
  _ <- memWrite mem addr (PutUint32 value) ;; ret tt.

Definition writeUint32 (mem : Memory) (addr value : Z) : M unit :=
  _ <- memWrite mem addr (PutUint32 value) ;; ret tt.

(** ** Lifecycle *)

Definition Init (p : Protoc) (ctx : Ctx) : M (Protoc * option error) :=
  if initialized p then ret (p, None)
  else
    r <- call (protocInit p ctx) EvInit ;;
    match r with
    | inr err => ret (p, Some ("protoc_init failed: " ++ err)%string)
    | inl res =>
        if negb (int32 res =? 0) then
          ret (p, Some "protoc_init returned error"%string)
        else ret (set_initialized true p, None)
    end.

(** [for _, ptr := range ptrs { p.freePtr(ctx, ptr) }] *)
Fixpoint freeAll (p : Protoc) (ctx : Ctx) (ptrs : list Z) : M unit :=
  match ptrs with
  | [] => ret tt
  | ptr :: rest => freePtr p ctx ptr ;;; freeAll p ctx rest
  end.

(** The first loop of [Run].  [done] is [argPtrs[0..i)], the pointers
    stored so far; on a failure at index [i] exactly these are freed. *)
Fixpoint allocArgs (p : Protoc) (ctx : Ctx) (args : list string)
  (done : list Z) : M (list Z * option error) :=
  match args with
  | [] => ret (done, None)
  | arg :: rest =>
      r <- allocString p ctx arg ;;
      match r with
      | (_, Some err) => freeAll p ctx done ;;; ret (done, Some err)
      | (ptr, None) => allocArgs p ctx rest (done ++ [ptr])
      end
  end.

Definition Run (p : Protoc) (ctx : Ctx) (args : list string)
  : M (Z * option error) :=
  if negb (initialized p) then
    ret (1, Some "protoc not initialized, call Init() first"%string)
  else
    let args := if len args =? 0 then ["protoc"%string] else args in
    let argc := len args in
    r <- allocArgs p ctx args [] ;;
    match r with
    | (_, Some err) => ret (1, Some err)
    | (argPtrs, None) =>
        a <- allocArgv p ctx argPtrs ;;
        match a with
        | (_, Some err) => freeAll p ctx argPtrs ;;; ret (1, Some err)
        | (argvPtr, None) =>
            res <- call (protocRun p ctx argc argvPtr) (EvRun argc argvPtr) ;;
            freePtr p ctx argvPtr ;;;
            freeAll p ctx argPtrs ;;;
            match res with
            | inr err => ret (1, Some ("protoc_run failed: " ++ err)%string)
            | inl r0 => ret (int32 r0, None)
            end
        end
    end.

Definition Close (p : Protoc) (ctx : Ctx) : M (Protoc * option error) :=
  p1 <- match initialized p, protocDestroy p with
        | true, Some destroy =>
            _ <- call (destroy ctx) EvDestroy ;;
            ret (set_initialized false p)
        | _, _ => ret p
        end ;;
  match mod_ p1 with
  | Some m => e <- call (ModClose m ctx) EvModClose ;; ret (p1, e)
  | None => ret (p1, None)
  end.

(** ** The plugin callback *)

(** [stack[0] = v] *)
Definition set0 (stack : list Z) (v : Z) : list Z :=
  match stack with
  | [] => []
  | _ :: rest => v :: rest
  end.

Definition hostPluginCommunicate (p : Protoc) (ctx : Ctx) (m : Module)
  (stack : list Z) : M (list Z) :=
  if len stack <? 9 then panic "index out of range"
  else
    let programPtr := uint32 (nth 0 stack 0) in
    let programLen := uint32 (nth 1 stack 0) in
    let searchPath := negb (int32 (nth 2 stack 0) =? 0) in
    let inputPtr := uint32 (nth 3 stack 0) in
    let inputLen := uint32 (nth 4 stack 0) in
    let outputPtrPtr := uint32 (nth 5 stack 0) in
    let outputLenPtr := uint32 (nth 6 stack 0) in
    let errorPtrPtr := uint32 (nth 7 stack 0) in
    let errorLenPtr := uint32 (nth 8 stack 0) in
    let mem := ModMemory m in
    rp <- ask (Read mem programPtr programLen) ;;
    match rp with
    | None => ret (set0 stack (EncodeI32 (-1)))
    | Some programBytes =>
        let program := string_of_list_byte programBytes in
        ri <- ask (Read mem inputPtr inputLen) ;;
        match ri with
        | None => ret (set0 stack (EncodeI32 (-1)))
        | Some inputData =>
            r <- call (Communicate (pluginHandler p) ctx program searchPath
                         inputData)
                      (EvCommunicate program searchPath inputData) ;;
            match r with
            | (_, Some errMsg) =>
                a <- allocBytes p ctx (list_byte_of_string errMsg) ;;
                match a with
                | (errPtr, None) =>
                    writePtr mem errorPtrPtr errPtr ;;;
                    writeUint32 mem errorLenPtr (uint32 (strlen errMsg))
                | (_, Some _) => ret tt
                end ;;;
                writePtr mem outputPtrPtr 0 ;;;
                writeUint32 mem outputLenPtr 0 ;;;
                ret (set0 stack (EncodeI32 1))
            | (output, None) =>
                a <- allocBytes p ctx output ;;
                match a with
                | (_, Some _) => ret (set0 stack (EncodeI32 (-1)))
                | (outPtr, None) =>
                    writePtr mem outputPtrPtr outPtr ;;;
                    writeUint32 mem outputLenPtr (uint32 (len output)) ;;;
                    writePtr mem errorPtrPtr 0 ;;;
                    writeUint32 mem errorLenPtr 0 ;;;
                    ret (set0 stack 0)
                end
            end
        end
    end.

End Bridge.

(** ** The default plugin handler *)

Section DefaultHandler.

Context {Ctx S : Type}.

(** What [Communicate] hands to os/exec, in the shape of [exec.Cmd]:
    the context, the program name, the argument vector and the
    standard input.  [Path] holds the name as it was given to
    [exec.CommandContext]; the look-up of a bare name along the search
    path, which os/exec performs on it, depends on the file system and
    is part of [cmdRun] below, as is its error. *)
Record Cmd : Type := {
  CmdCtx : Ctx;
  Path : string;
  Args : list string;
  Stdin : list byte
}.

(** [exec.CommandContext(ctx, name)], before the path look-up. *)
Definition CommandContext (ctx : Ctx) (name : string) : Cmd :=
  {| CmdCtx := ctx; Path := name; Args := [name]; Stdin := [] |}.

Definition withStdin (input : list byte) (cmd : Cmd) : Cmd :=
  {| CmdCtx := CmdCtx cmd; Path := Path cmd; Args := Args cmd;
     Stdin := input |}.

(** [cmd.Run()] is the operating system's: it answers the error of the
    run and what the child wrote to the stdout and stderr buffers. *)
Variable cmdRun : Cmd -> S -> (option error * list byte * list byte) * S.

(** The command [Communicate] builds before running it. *)
Definition buildCmd (ctx : Ctx) (program : string) (searchPath : bool)
  (input : list byte) : Cmd :=
  let cmd :=
    if searchPath then CommandContext ctx program
    else CommandContext ctx program in
  withStdin input cmd.

Definition DefaultPluginHandler_Communicate (ctx : Ctx) (program : string)
  (searchPath : bool) (input : list byte)
  : S -> (list byte * option error) * S :=
  fun s =>
    match cmdRun (buildCmd ctx program searchPath input) s with
    | (Some err, _, stderr, s1) =>
        if 0 <? len stderr then
          ([], Some (program ++ ": " ++ err ++ ": "
                       ++ string_of_list_byte stderr)%string, s1)
        else ([], Some (program ++ ": " ++ err)%string, s1)
    | (None, stdout, _, s1) => (stdout, None, s1)
    end.

Definition DefaultPluginHandler : @PluginHandler Ctx S :=
  {| Communicate := DefaultPluginHandler_Communicate |}.

End DefaultHandler.

(** ** The allocation ledger of a trace *)

(** The pointer a malloc event hands to the bridge: a call that neither
    failed nor answered the null pointer. *)
Definition allocated (e : event) : list Z :=
  match e with
  | EvMalloc _ (inl res) => if uint32 res =? 0 then [] else [uint32 res]
  | _ => []
  end.

(** The pointer a free event hands back to the guest. *)
Definition released (e : event) : list Z :=
  match e with
  | EvFree ptr _ => [ptr]
  | _ => []
  end.

Definition allocs (tr : list event) : list Z := flat_map allocated tr.

Definition frees (tr : list event) : list Z := flat_map released tr.

(** Allocations handed out and not yet handed back. *)
Definition outstanding (tr : list event) : Z :=
  len (allocs tr) - len (frees tr).

(** Events on the guest's entry points other than the allocator. *)
Definition is_entry (e : event) : bool :=
  match e with
  | EvInit _ | EvRun _ _ _ | EvDestroy _ => true
  | _ => false
  end.

Definition is_malloc (e : event) : bool :=
  match e with
  | EvMalloc _ _ => true
  | _ => false
  end.

(** A write the memory accepted. *)
Definition accepted_write (e : event) : bool :=
  match e with
  | EvWrite _ _ true => true
  | _ => false
  end.

(** The 32-bit status word the callback leaves in [stack[0]]. *)
Definition status (stack : list Z) : Z := int32 (nth 0 stack 0).

(** ** Vocabulary of the properties *)

(** A trace that touches no guest entry point besides the allocator. *)
Definition quiet (tr : list event) : Prop :=
  Forall (fun e => is_entry e = false) tr.

(** What is known of the answer of an allocation helper: a non-zero
    pointer that is the one allocation of the trace, or an error with
    the ledger of the trace given by [failed]. *)
Definition alloc_post (failed : list event -> Prop)
  (a : Z * option error) (tr : list event) : Prop :=
  quiet tr /\
  match a with
  | (ptr, None) => ptr <> 0 /\ allocs tr = [ptr] /\ frees tr = []
  | (_, Some _) => failed tr
  end.

(** What [Run] answers once the run export has answered [res]. *)
Definition exit_of (res : Z + error) : Z * option error :=
  match res with
  | inl r0 => (int32 r0, None)
  | inr err => (1, Some ("protoc_run failed: " ++ err)%string)
  end.

(** [uint32(stack[i])]. *)
Definition word (stack : list Z) (i : nat) : Z := uint32 (nth i stack 0).

(** [tr] is exactly the write attempts [ws], in order; each may have
    been accepted or rejected by the memory. *)
Fixpoint writes_of (ws : list (Z * list byte)) (tr : list event) : Prop :=
  match ws, tr with
  | [], [] => True
  | (offset, data) :: ws', EvWrite offset' data' _ :: tr' =>
      offset = offset' /\ data = data' /\ writes_of ws' tr'
  | _, _ => False
  end.

(** The bytes the callback copies into the sandbox: the error text of
    the handler, or else its output. *)
Definition payload (r : list byte * option error) : list byte :=
  match r with
  | (_, Some errMsg) => list_byte_of_string errMsg
  | (output, None) => output
  end.

(** The status word and the slot writes of the callback, given the
    answer of the handler and the answer of [allocBytes] on its
    payload. *)
Definition slot_protocol (stack : list Z) (r : list byte * option error)
  (a : Z * option error) : Z * list (Z * list byte) :=
  match r, a with
  | (_, Some errMsg), (errPtr, None) =>
      (1, [(word stack 7, PutUint32 errPtr);
           (word stack 8, PutUint32 (uint32 (strlen errMsg)));
           (word stack 5, PutUint32 0);
           (word stack 6, PutUint32 0)])
  | (_, Some _), (_, Some _) =>
      (1, [(word stack 5, PutUint32 0); (word stack 6, PutUint32 0)])
  | (_, None), (_, Some _) => (-1, [])
  | (output, None), (outPtr, None) =>
      (0, [(word stack 5, PutUint32 outPtr);
           (word stack 6, PutUint32 (uint32 (len output)));
           (word stack 7, PutUint32 0);
           (word stack 8, PutUint32 0)])
  end.

Section Vocabulary.

Context {Ctx S : Type}.

(** [post m s Q]: run from [s], the computation [m] does not panic, and
    its value, final state and trace satisfy [Q]. *)
Definition post {A} (m : @M S A) (s : S)
  (Q : A -> S -> list event -> Prop) : Prop :=
  match m s with
  | (Done a, s1, tr) => Q a s1 tr
  | (Panic _, _, _) => False
  end.

(** The second half of [Close]: the module, when set, is closed and
    the answer of that call is the answer of [Close]. *)
Definition closes_module_only p ctx s
  : outcome (@Protoc Ctx S * option error) * S * list event :=
  match mod_ p with
  | Some m =>
      match ModClose m ctx s with
      | (e, s1) => (Done (p, e), s1, [EvModClose e])
      end
  | None => (Done (p, None), s, [])
  end.

End Vocabulary.

(** ** Statements of the specification, as it words them *)

(** The callback's status as the specification words it: whenever the
    handler succeeded, the status word is 0. *)
Definition callback_status_as_specified (Ctx S : Type) : Prop :=
  forall (p : @Protoc Ctx S) ctx m stack s out s1 tr program searchPath
         input output,
    9 <= len stack ->
    hostPluginCommunicate p ctx m stack s = (Done out, s1, tr) ->
    In (EvCommunicate program searchPath input (output, None)) tr ->
    status out = 0.

(** [Close] as the specification words it: on an instance that is not
    initialized it does nothing. *)
Definition Close_noop_as_specified (Ctx S : Type) : Prop :=
  forall (p : @Protoc Ctx S) ctx s,
    initialized p = false -> Close p ctx s = (Done (p, None), s, []).

(** The callback after a helper error whose text could not be copied
    (nothing is left allocated), as the specification words it: the
    status is 1 and the two output slots hold zero. *)
Definition callback_clears_output_as_specified (Ctx S : Type) : Prop :=
  forall (p : @Protoc Ctx S) ctx m stack s out s1 tr program searchPath
         input output errMsg,
    9 <= len stack ->
    hostPluginCommunicate p ctx m stack s = (Done out, s1, tr) ->
    In (EvCommunicate program searchPath input (output, Some errMsg)) tr ->
    outstanding tr = 0 ->
    status out = 1 /\
    Read (ModMemory m) (word stack 5) 4 s1 = Some (PutUint32 0) /\
    Read (ModMemory m) (word stack 6) 4 s1 = Some (PutUint32 0).

(** ** A small concrete sandbox

    A byte array with bounds-checked access, a bump allocator that
    never looks at the size of the memory, and plugin handlers that
    echo their input or fail.  It instantiates the abstract engine at
    concrete inputs. *)

Module Toy.

Record state : Type := {
  cells : list byte;
  brk : Z
}.

Definition read (offset byteCount : Z) (s : state) : option (list byte) :=
  if offset + byteCount <=? len (cells s) then
    Some (firstn (Z.to_nat byteCount) (skipn (Z.to_nat offset) (cells s)))
  else None.

Definition write (offset : Z) (data : list byte) (s : state) : bool * state :=
  if offset + len data <=? len (cells s) then
    (true,
     {| cells := firstn (Z.to_nat offset) (cells s) ++ data
                 ++ skipn (Z.to_nat (offset + len data)) (cells s);
        brk := brk s |})
  else (false, s).

Definition memory : @Memory state := {| Read := read; Write := write |}.

Definition module : @Module unit state :=
  {| ModMemory := memory; ModClose := fun _ s => (None, s) |}.

(** A bump allocator. *)
Definition bump (_ : unit) (size : Z) (s : state) : (Z + error) * state :=
  (inl (brk s), {| cells := cells s; brk := brk s + size |}).

(** An exhausted allocator: it answers the null pointer. *)
Definition exhausted (_ : unit) (size : Z) (s : state)
  : (Z + error) * state := (inl 0, s).

Definition release (_ : unit) (ptr : Z) (s : state) : option error * state :=
  (None, s).

Definition echo : @PluginHandler unit state :=
  {| Communicate := fun _ _ _ input s => (input, None, s) |}.

Definition missing : @PluginHandler unit state :=
  {| Communicate := fun _ program _ _ s =>
       ([], Some (program ++ ": not found")%string, s) |}.

(** An instance as [NewProtocWithModule] returns it, with the given
    allocator, answers of the init and run exports, and handler. *)
Definition instance (alloc : unit -> Z -> state -> (Z + error) * state)
  (initRes runRes : Z + error) (destroyErr : option error)
  (h : @PluginHandler unit state) (inited : bool) : @Protoc unit state :=
  {| mod_ := Some module;
     malloc := alloc;
     free := release;
     protocInit := fun _ s => (initRes, s);
     protocRun := fun _ _ _ s => (runRes, s);
     protocDestroy := Some (fun _ s => (destroyErr, s));
     pluginHandler := h;
     initialized := inited |}.

(** Instances: initialized or not; with an exhausted allocator; with
    a handler that fails; with an init export that answers status 7;
    with a run export that traps; with a destroy export that fails. *)
Definition ready : @Protoc unit state :=
  instance bump (inl 0) (inl 3) None echo true.

Definition fresh : @Protoc unit state :=
  instance bump (inl 0) (inl 3) None echo false.

Definition starved : @Protoc unit state :=
  instance exhausted (inl 0) (inl 3) None echo true.

Definition helpless : @Protoc unit state :=
  instance bump (inl 0) (inl 3) None missing true.

Definition starved_helpless : @Protoc unit state :=
  instance exhausted (inl 0) (inl 3) None missing true.

Definition refused : @Protoc unit state :=
  instance bump (inl 7) (inl 3) None echo false.

Definition trapping : @Protoc unit state :=
  instance bump (inl 0) (inr "unreachable"%string) None echo true.

Definition faulty : @Protoc unit state :=
  instance bump (inl 0) (inl 3) (Some "destroy trapped"%string) echo true.

(** Sixteen bytes of memory, the allocator starting at offset 8. *)
Definition small : state := {| cells := repeat x00 16; brk := 8 |}.

(** Twelve bytes of memory, the allocator starting at offset 8: a
    two-byte string fits at 8, a four-byte block at 10 does not. *)
Definition tight : state := {| cells := repeat x00 12; brk := 8 |}.

(** Memory that holds the program name [plug] at offset 0, with four
    slots at 16, 20, 24 and 28 and the allocator starting at 32. *)
Definition withName : state :=
  {| cells := list_byte_of_string "plug" ++ repeat x00 60; brk := 32 |}.

(** The nine words of a callback: name at 0 of length 4, flag,
    empty input at 4, the output slots and the error slots. *)
Definition callStack : list Z := [0; 4; 1; 4; 0; 16; 20; 24; 28].

(** The same call with the program name out of the memory's bounds. *)
Definition wildStack : list Z := [100; 4; 1; 4; 0; 16; 20; 24; 28].

(** The same call with the two output slots out of the memory's
    bounds. *)
Definition farStack : list Z := [0; 4; 1; 4; 0; 100; 104; 24; 28].

End Toy.

(** ** More of the bridge's surroundings *)

(** [binary.LittleEndian.Uint32]: the word a little-endian reader, such
    as the guest, finds in four bytes. *)
Definition Uint32 (b : list byte) : Z :=
  match b with
  | b0 :: b1 :: b2 :: b3 :: _ =>
      Z.lor (Z.of_N (Byte.to_N b0))
        (Z.lor (Z.shiftl (Z.of_N (Byte.to_N b1)) 8)
           (Z.lor (Z.shiftl (Z.of_N (Byte.to_N b2)) 16)
              (Z.shiftl (Z.of_N (Byte.to_N b3)) 24)))
  | _ => 0
  end.

(** The arguments [Run] marshals: a single program name when the
    slice is empty. *)
Definition effective_args (args : list string) : list string :=
  if len args =? 0 then ["protoc"%string] else args.

(** An event that is a call of the plugin handler. *)
Definition is_communicate (e : event) : bool :=
  match e with
  | EvCommunicate _ _ _ _ => true
  | _ => false
  end.

(** A client of an instance: any sequence of the three methods, as the
    tests drive them ([Init], several [Run], a deferred [Close]). *)
Inductive request : Type :=
| ReqInit
| ReqRun (args : list string)
| ReqClose.

Section Client.

Context {Ctx S : Type}.

Fixpoint session (p : @Protoc Ctx S) (ctx : Ctx) (reqs : list request)
  : @M S (@Protoc Ctx S) :=
  match reqs with
  | [] => ret p
  | ReqInit :: rest =>
      bind (Init p ctx) (fun r => session (fst r) ctx rest)
  | ReqRun args :: rest =>
      bind (Run p ctx args) (fun _ => session p ctx rest)
  | ReqClose :: rest =>
      bind (Close p ctx) (fun r => session (fst r) ctx rest)
  end.

End Client.

(** The lifecycle as the guest sees it, read off a trace: [inited]
    tells whether the reactor is initialized before the trace.  The
    init export may be entered only while it is not, the run and
    destroy exports only while it is. *)
Fixpoint lifecycle_ok (inited : bool) (tr : list event) : bool :=
  match tr with
  | [] => true
  | EvInit res :: rest =>
      negb inited &&
      lifecycle_ok (match res with
                    | inl r => int32 r =? 0
                    | inr _ => false
                    end) rest
  | EvRun _ _ _ :: rest => inited && lifecycle_ok inited rest
  | EvDestroy _ :: rest => inited && lifecycle_ok false rest
  | _ :: rest => lifecycle_ok inited rest
  end.

(** Whether the reactor is initialized after the trace. *)
Fixpoint lifecycle_state (inited : bool) (tr : list event) : bool :=
  match tr with
  | [] => inited
  | EvInit res :: rest =>
      lifecycle_state (match res with
                       | inl r => int32 r =? 0
                       | inr _ => false
                       end) rest
  | EvDestroy _ :: rest => lifecycle_state false rest
  | _ :: rest => lifecycle_state inited rest
  end.

(** ** Creating an instance *)

(** The constants of [embed.go]. *)
Definition ProtocWASMFilename : string := "protoc.wasm".
Definition ExportProtocInit : string := "protoc_init".
Definition ExportProtocRun : string := "protoc_run".
Definition ExportProtocDestroy : string := "protoc_destroy".
Definition ExportMalloc : string := "malloc".
Definition ExportFree : string := "free".
Definition ExportRealloc : string := "realloc".
Definition ExportCalloc : string := "calloc".
Definition ImportModuleProtoc : string := "protoc".
Definition ImportPluginCommunicate : string := "plugin_communicate".

(** [api.ValueType], the one value the bridge uses. *)
Inductive ValueType : Type :=
| ValueTypeI32.

Section Construction.

Context {Ctx S : Type}.

(** The host's streams and file systems, the engine's file-system
    configuration and compiled modules: all opaque to the bridge. *)
Context {Reader Writer FS FSConfig Compiled : Type}.

(** [wazero.NewFSConfig()] and [FSConfig.WithFSMount(fs, path)]. *)
Variable NewFSConfig : FSConfig.
Variable WithFSMount : FS -> string -> FSConfig -> FSConfig.

(** The embedded module image, [ProtocWASM]. *)
Variable ProtocWASM : list byte.

(** The operating system behind the default plugin handler. *)
Variable cmdRun : @Cmd Ctx -> S -> (option error * list byte * list byte) * S.

(** The [Config] struct; a nil field is [None]. *)
Record Config : Type := {
  cfgStdin : option Reader;
  cfgStdout : option Writer;
  cfgStderr : option Writer;
  cfgFS : option FS;
  cfgFSConfig : option FSConfig;
  cfgPluginHandler : option (@PluginHandler Ctx S)
}.

(** [&Config{}] *)
Definition emptyConfig : Config :=
  {| cfgStdin := None; cfgStdout := None; cfgStderr := None;
     cfgFS := None; cfgFSConfig := None; cfgPluginHandler := None |}.

(** [wazero.ModuleConfig], as far as the bridge sets it. *)
Record ModuleConfig : Type := {
  mcName : string;
  mcStdin : option Reader;
  mcStdout : option Writer;
  mcStderr : option Writer;
  mcFSConfig : option FSConfig
}.

Definition NewModuleConfig : ModuleConfig :=
  {| mcName := ""; mcStdin := None; mcStdout := None; mcStderr := None;
     mcFSConfig := None |}.

Definition WithName (name : string) (c : ModuleConfig) : ModuleConfig :=
  {| mcName := name; mcStdin := mcStdin c; mcStdout := mcStdout c;
     mcStderr := mcStderr c; mcFSConfig := mcFSConfig c |}.

Definition WithStdin (r : Reader) (c : ModuleConfig) : ModuleConfig :=
  {| mcName := mcName c; mcStdin := Some r; mcStdout := mcStdout c;
     mcStderr := mcStderr c; mcFSConfig := mcFSConfig c |}.

Definition WithStdout (w : Writer) (c : ModuleConfig) : ModuleConfig :=
  {| mcName := mcName c; mcStdin := mcStdin c; mcStdout := Some w;
     mcStderr := mcStderr c; mcFSConfig := mcFSConfig c |}.

Definition WithStderr (w : Writer) (c : ModuleConfig) : ModuleConfig :=
  {| mcName := mcName c; mcStdin := mcStdin c; mcStdout := mcStdout c;
     mcStderr := Some w; mcFSConfig := mcFSConfig c |}.

Definition WithFSConfig (f : FSConfig) (c : ModuleConfig) : ModuleConfig :=
  {| mcName := mcName c; mcStdin := mcStdin c; mcStdout := mcStdout c;
     mcStderr := mcStderr c; mcFSConfig := Some f |}.

(** An instantiated module: the [api.Module] and what
    [ExportedFunction] answers for the six names the constructor looks
    up, nil being [None].  The exports have the signatures [embed.go]
    documents. *)
Record Instance : Type := {
  instModule : @Module Ctx S;
  exp_initialize : option (Ctx -> S -> option error * S);
  exp_malloc : option (Ctx -> Z -> S -> (Z + error) * S);
  exp_free : option (Ctx -> Z -> S -> option error * S);
  exp_protoc_init : option (Ctx -> S -> (Z + error) * S);
  exp_protoc_run : option (Ctx -> Z -> Z -> S -> (Z + error) * S);
  exp_protoc_destroy : option (Ctx -> S -> option error * S)
}.

(** [wazero.Runtime], as the constructor uses it: compiling a module,
    instantiating the host module that exports the plugin callback
    (module name, export name, parameter and result types),
    instantiating WASI, and instantiating the compiled module. *)
Record Runtime : Type := {
  CompileModule : Ctx -> list byte -> S -> (Compiled + error) * S;
  HostModuleInstantiate :
    Ctx -> string -> string -> list ValueType -> list ValueType ->
    S -> option error * S;
  WasiInstantiate : Ctx -> S -> option error * S;
  InstantiateModule :
    Ctx -> Compiled -> ModuleConfig -> S -> (Instance + error) * S
}.

(** What the constructor asks of the engine. *)
Inductive setup_event : Type :=
| SeCompile (res : Compiled + error)
| SeHostModule (moduleName exportName : string)
               (params results : list ValueType) (err : option error)
| SeWasi (err : option error)
| SeInstantiate (modCfg : ModuleConfig) (res : Instance + error)
| SeInitialize (err : option error)
| SeClose (err : option error).

(** Computations of the constructor: they stop at the first error
    returned. *)
Definition Setup (A : Type) : Type :=
  S -> (A + error) * S * list setup_event.

Definition sret {A} (a : A) : Setup A := fun s => (inl a, s, []).

Definition fail {A} (e : error) : Setup A := fun s => (inr e, s, []).

Definition sbind {A B} (c : Setup A) (f : A -> Setup B) : Setup B :=
  fun s =>
    match c s with
    | (inl a, s1, t1) =>
        match f a s1 with
        | (r, s2, t2) => (r, s2, t1 ++ t2)
        end
    | (inr e, s1, t1) => (inr e, s1, t1)
    end.

Definition step {A} (f : S -> A * S) (ev : A -> setup_event) : Setup A :=
  fun s => match f s with (a, s1) => (inl a, s1, [ev a]) end.

(** The module configuration the constructor builds from a [Config]. *)
Definition moduleConfig (cfg : Config) : ModuleConfig :=
  let modCfg := WithName ProtocWASMFilename NewModuleConfig in
  let modCfg :=
    match cfgStdin cfg with
    | Some r => WithStdin r modCfg
    | None => modCfg
    end in
  let modCfg :=
    match cfgStdout cfg with
    | Some w => WithStdout w modCfg
    | None => modCfg
    end in
  let modCfg :=
    match cfgStderr cfg with
    | Some w => WithStderr w modCfg
    | None => modCfg
    end in
  match cfgFSConfig cfg with
  | Some f => WithFSConfig f modCfg
  | None =>
      match cfgFS cfg with
      | Some fs => WithFSConfig (WithFSMount fs "/" NewFSConfig) modCfg
      | None => modCfg
      end
  end.

(** [mod.Close(ctx)] followed by [return nil, errors.New(msg)]. *)
Definition closeAndFail {A} (ctx : Ctx) (inst : Instance) (msg : error)
  : Setup A :=
  sbind (step (ModClose (instModule inst) ctx) SeClose)
        (fun _ => fail msg).

Definition NewProtocWithModule (ctx : Ctx) (r : Runtime)
  (compiled : Compiled) (cfg : option Config) : Setup (@Protoc Ctx S) :=
  let cfg := match cfg with Some c => c | None => emptyConfig end in
  let handler :=
    match cfgPluginHandler cfg with
    | Some h => h
    | None => DefaultPluginHandler cmdRun
    end in
  sbind (step (HostModuleInstantiate r ctx ImportModuleProtoc
                 ImportPluginCommunicate (repeat ValueTypeI32 9)
                 [ValueTypeI32])
              (SeHostModule ImportModuleProtoc ImportPluginCommunicate
                 (repeat ValueTypeI32 9) [ValueTypeI32]))
  (fun herr =>
  match herr with
  | Some e => fail ("failed to register host functions: " ++ e)%string
  | None =>
  sbind (step (WasiInstantiate r ctx) SeWasi)
  (fun werr =>
  match werr with
  | Some e => fail ("failed to instantiate WASI: " ++ e)%string
  | None =>
  let modCfg := moduleConfig cfg in
  sbind (step (InstantiateModule r ctx compiled modCfg) (SeInstantiate modCfg))
  (fun res =>
  match res with
  | inr e => fail ("failed to instantiate module: " ++ e)%string
  | inl inst =>
  sbind (match exp_initialize inst with
         | Some initFn =>
             sbind (step (initFn ctx) SeInitialize)
               (fun ierr =>
                  match ierr with
                  | Some e =>
                      closeAndFail ctx inst ("_initialize failed: " ++ e)%string
                  | None => sret tt
                  end)
         | None => sret tt
         end)
  (fun _ =>
  match exp_malloc inst with
  | None => closeAndFail ctx inst ("missing export: " ++ ExportMalloc)%string
  | Some mallocFn =>
  match exp_free inst with
  | None => closeAndFail ctx inst ("missing export: " ++ ExportFree)%string
  | Some freeFn =>
  match exp_protoc_init inst with
  | None =>
      closeAndFail ctx inst ("missing export: " ++ ExportProtocInit)%string
  | Some initFn =>
  match exp_protoc_run inst with
  | None =>
      closeAndFail ctx inst ("missing export: " ++ ExportProtocRun)%string
  | Some runFn =>
  match exp_protoc_destroy inst with
  | None =>
      closeAndFail ctx inst ("missing export: " ++ ExportProtocDestroy)%string
  | Some destroyFn =>
      sret {| mod_ := Some (instModule inst);
              malloc := mallocFn;
              free := freeFn;
              protocInit := initFn;
              protocRun := runFn;
              protocDestroy := Some destroyFn;
              pluginHandler := handler;
              initialized := false |}
  end end end end end)
  end)
  end)
  end).

(** [CompileProtoc] *)
Definition CompileProtoc (ctx : Ctx) (r : Runtime) : Setup Compiled :=
  sbind (step (CompileModule r ctx ProtocWASM) SeCompile)
    (fun res =>
       match res with
       | inl compiled => sret compiled
       | inr e => fail e
       end).

Definition NewProtoc (ctx : Ctx) (r : Runtime) (cfg : option Config)
  : Setup (@Protoc Ctx S) :=
  sbind (CompileProtoc ctx r)
    (fun compiled => NewProtocWithModule ctx r compiled cfg).

(** The first of the five required exports that the module lacks, in
    the order the constructor checks them. *)
Definition first_missing (inst : Instance) : option string :=
  match exp_malloc inst, exp_free inst, exp_protoc_init inst,
        exp_protoc_run inst, exp_protoc_destroy inst with
  | None, _, _, _, _ => Some ExportMalloc
  | _, None, _, _, _ => Some ExportFree
  | _, _, None, _, _ => Some ExportProtocInit
  | _, _, _, None, _ => Some ExportProtocRun
  | _, _, _, _, None => Some ExportProtocDestroy
  | _, _, _, _, _ => None
  end.

Definition is_close (e : setup_event) : bool :=
  match e with
  | SeClose _ => true
  | _ => false
  end.

End Construction.

(** ** A small concrete engine *)

Module ToyEngine.

(** A module with every export, and one without [free] and
    [protoc_run] and without [_initialize]. *)
Definition full : @Instance unit Toy.state :=
  {| instModule := Toy.module;
     exp_initialize := Some (fun _ s => (None, s));
     exp_malloc := Some Toy.bump;
     exp_free := Some Toy.release;
     exp_protoc_init := Some (fun _ s => (inl 0, s));
     exp_protoc_run := Some (fun _ _ _ s => (inl 0, s));
     exp_protoc_destroy := Some (fun _ s => (None, s)) |}.

Definition lacking : @Instance unit Toy.state :=
  {| instModule := Toy.module;
     exp_initialize := None;
     exp_malloc := Some Toy.bump;
     exp_free := None;
     exp_protoc_init := Some (fun _ s => (inl 0, s));
     exp_protoc_run := None;
     exp_protoc_destroy := Some (fun _ s => (None, s)) |}.

(** Streams and file systems are named by strings; a file-system
    configuration is its list of mounts; a compiled module is its
    image. *)
Definition runtime (inst : @Instance unit Toy.state)
  : @Runtime unit Toy.state string string (list (string * string))
      (list byte) :=
  {| CompileModule := fun _ image s => (inl image, s);
     HostModuleInstantiate := fun _ _ _ _ _ s => (None, s);
     WasiInstantiate := fun _ s => (None, s);
     InstantiateModule := fun _ _ _ s => (inl inst, s) |}.

Definition mount (fs path : string) (c : list (string * string))
  : list (string * string) := c ++ [(fs, path)].

Definition image : list byte := [x00; "a"%byte; "s"%byte; "m"%byte].

(** A child process that succeeds silently, and one that fails with
    a diagnostic. *)
Definition quietOS (_ : @Cmd unit) (s : Toy.state)
  : (option error * list byte * list byte) * Toy.state :=
  (None, [], [], s).

Definition failingOS (_ : @Cmd unit) (s : Toy.state)
  : (option error * list byte * list byte) * Toy.state :=
  (Some "exit status 1"%string, [], list_byte_of_string "boom", s).

Definition config
  : @Config unit Toy.state string string string (list (string * string)) :=
  {| cfgStdin := None;
     cfgStdout := Some "out"%string;
     cfgStderr := None;
     cfgFS := Some "memfs"%string;
     cfgFSConfig := None;
     cfgPluginHandler := Some Toy.echo |}.

(** An initialized instance over the default handler and the failing
    child. *)
Definition spawning : @Protoc unit Toy.state :=
  Toy.instance Toy.bump (inl 0) (inl 3) None
    (DefaultPluginHandler failingOS) true.

(** An allocator whose call fails, and an instance over it. *)
Definition refusing (_ : unit) (size : Z) (s : Toy.state)
  : (Z + error) * Toy.state := (inr "out of memory"%string, s).

Definition oom : @Protoc unit Toy.state :=
  Toy.instance refusing (inl 0) (inl 3) None Toy.echo true.

(** The instance the constructor builds on [full]. *)
Definition built (h : @PluginHandler unit Toy.state) : @Protoc unit Toy.state :=
  {| mod_ := Some Toy.module;
     malloc := Toy.bump;
     free := Toy.release;
     protocInit := fun _ s => (inl 0, s);
     protocRun := fun _ _ _ s => (inl 0, s);
     protocDestroy := Some (fun _ s => (None, s));
     pluginHandler := h;
     initialized := false |}.

(** An engine that rejects calls on a closed module: closing marks
    the state, and the init export then fails. *)
Definition shut (s : Toy.state) : Toy.state :=
  {| Toy.cells := Toy.cells s; Toy.brk := -1 |}.

Definition closable : @Module unit Toy.state :=
  {| ModMemory := Toy.memory; ModClose := fun _ s => (None, shut s) |}.

Definition live : @Protoc unit Toy.state :=
  {| mod_ := Some closable;
     malloc := Toy.bump;
     free := Toy.release;
     protocInit := fun _ s =>
       if Toy.brk s <? 0 then (inr "module closed"%string, s)
       else (inl 0, s);
     protocRun := fun _ _ _ s => (inl 0, s);
     protocDestroy := Some (fun _ s => (None, s));
     pluginHandler := Toy.echo;
     initialized := true |}.

(** A client that runs too early, initializes twice, runs, closes
    twice and runs again. *)
Definition script : list request :=
  [ReqRun ["a"%string]; ReqInit; ReqInit; ReqRun ["a"%string];
   ReqClose; ReqClose; ReqRun []].

End ToyEngine.

(** * Properties *)

Arguments uint32 : simpl never.
Arguments int32 : simpl never.
Arguments EncodeI32 : simpl never.
Arguments PutUint32 : simpl never.
Arguments len : simpl never.
Arguments strlen : simpl never.

Section BridgeFacts.

Context {Ctx S : Type}.

Implicit Types (p : @Protoc Ctx S) (m : @Module Ctx S) (ctx : Ctx) (s : S).

(** ** The ledger is additive *)

Lemma allocs_app (t1 t2 : list event) :
  allocs (t1 ++ t2) = allocs t1 ++ allocs t2.
Proof. apply flat_map_app. Qed.

Lemma frees_app (t1 t2 : list event) :
  frees (t1 ++ t2) = frees t1 ++ frees t2.
Proof. apply flat_map_app. Qed.

Lemma outstanding_app (t1 t2 : list event) :
  outstanding (t1 ++ t2) = outstanding t1 + outstanding t2.
Proof.
  unfold outstanding, len.
  rewrite allocs_app, frees_app, !length_app. lia.
Qed.

Lemma outstanding_balanced (tr : list event) :
  Permutation (allocs tr) (frees tr) -> outstanding tr = 0.
Proof.
  intros HP. unfold outstanding, len.
  rewrite (Permutation_length HP). lia.
Qed.

(** ** Unfolding the monad *)

Ltac unmonad :=
  unfold memWrite, modMemory in *;
  unfold bind, call, ret, ask, panic in *.

(** Case analysis on the answer of the next external call. *)
Ltac answer f :=
  let r := fresh "r" in
  let s1 := fresh "s" in
  let E := fresh "E" in
  simpl in *; destruct f as [r s1] eqn:E; simpl in *.

(** ** Run before Init *)

(** C6: with [initialized] false, [Run] answers exit code 1 and the
    not-initialized error for every argument list; the external state
    is untouched and the trace is empty, so neither the guest allocator
    nor any other guest entry point has been invoked. *)
Theorem Run_requires_Init p ctx (args : list string) s :
  initialized p = false ->
  Run p ctx args s =
    (Done (1, Some "protoc not initialized, call Init() first"%string),
     s, []).
Proof.
  intros Hinit. unfold Run. rewrite Hinit. reflexivity.
Qed.

(** ** Init *)

Lemma Init_initialized p ctx s :
  initialized p = true -> Init p ctx s = (Done (p, None), s, []).
Proof.
  intros Hinit. unfold Init. rewrite Hinit. reflexivity.
Qed.

(** C7: when the instance is not initialized and the init export
    answers a status whose 32-bit value is zero, [Init] succeeds after
    that one call and leaves the instance initialized, and a second
    [Init] then succeeds at once: same instance, same external state,
    empty trace (the init export is not invoked again).  More generally
    an [Init] on an initialized instance succeeds at once, and whenever
    a first [Init] succeeds the instance it leaves is initialized and a
    second [Init] on it succeeds at once.  When the init export answers
    a status whose 32-bit value is not zero, [Init] reports the init
    failure and the instance stays not initialized. *)
Theorem Init_idempotent p ctx s :
  (forall res s1,
      initialized p = false ->
      protocInit p ctx s = (inl res, s1) ->
      int32 res = 0 ->
      Init p ctx s =
        (Done (set_initialized true p, None), s1, [EvInit (inl res)]) /\
      initialized (set_initialized true p) = true /\
      Init (set_initialized true p) ctx s1 =
        (Done (set_initialized true p, None), s1, [])) /\
  (initialized p = true -> Init p ctx s = (Done (p, None), s, [])) /\
  (forall p1 s1 t1,
      Init p ctx s = (Done (p1, None), s1, t1) ->
      initialized p1 = true /\
      Init p1 ctx s1 = (Done (p1, None), s1, [])) /\
  (forall res s1,
      initialized p = false ->
      protocInit p ctx s = (inl res, s1) ->
      int32 res <> 0 ->
      Init p ctx s =
        (Done (p, Some "protoc_init returned error"%string), s1,
         [EvInit (inl res)]) /\
      initialized p = false).
Proof.
  split; [| split; [apply Init_initialized | split]].
  - intros res s1 Hinit Hcall Hres. split; [| split].
    + unfold Init. rewrite Hinit. unmonad. rewrite Hcall. simpl.
      apply Z.eqb_eq in Hres. rewrite Hres. reflexivity.
    + reflexivity.
    + apply Init_initialized. reflexivity.
  - intros p1 s1 t1 H.
    assert (Hp1 : initialized p1 = true).
    { unfold Init in H. destruct (initialized p) eqn:Hinit.
      - unmonad. inversion H; subst. exact Hinit.
      - unmonad. answer (protocInit p ctx s).
        destruct r as [res | err]; simpl in H.
        + destruct (int32 res =? 0); simpl in H; inversion H; reflexivity.
        + inversion H. }
    split; [exact Hp1 | apply Init_initialized; exact Hp1].
  - intros res s1 Hinit Hcall Hres. split; [| exact Hinit].
    unfold Init. rewrite Hinit. unmonad. rewrite Hcall. simpl.
    apply Z.eqb_neq in Hres. rewrite Hres. reflexivity.
Qed.

(** ** allocBytes *)

(** C3: [allocBytes] fails with the null-allocation error when the
    allocator answers the zero pointer, after the malloc call alone;
    when the allocator answers a non-zero pointer and the memory write
    is rejected, it frees that pointer and then fails with the write
    error.  Whenever it fails, its trace leaves no allocation
    outstanding. *)
Theorem allocBytes_failure_paths p m ctx (data : list byte) s :
  mod_ p = Some m ->
  (forall res s1,
      malloc p ctx (len data) s = (inl res, s1) ->
      uint32 res = 0 ->
      allocBytes p ctx data s =
        (Done (0, Some "malloc returned null"%string), s1,
         [EvMalloc (len data) (inl res)])) /\
  (forall res s1 s2 ferr s3,
      malloc p ctx (len data) s = (inl res, s1) ->
      uint32 res <> 0 ->
      Write (ModMemory m) (uint32 res) data s1 = (false, s2) ->
      free p ctx (uint32 res) s2 = (ferr, s3) ->
      allocBytes p ctx data s =
        (Done (0, Some "failed to write to memory"%string), s3,
         [EvMalloc (len data) (inl res);
          EvWrite (uint32 res) data false;
          EvFree (uint32 res) ferr])) /\
  (forall ptr err s1 tr,
      allocBytes p ctx data s = (Done (ptr, Some err), s1, tr) ->
      Permutation (allocs tr) (frees tr) /\ outstanding tr = 0).
Proof.
  intros Hmod. split; [| split].
  - intros res s1 Hm Hz. unfold allocBytes. unmonad.
    rewrite Hm. simpl. rewrite Hz. reflexivity.
  - intros res s1 s2 ferr s3 Hm Hnz Hw Hf. unfold allocBytes. unmonad.
    rewrite Hm. simpl. apply Z.eqb_neq in Hnz. rewrite Hnz, Hmod. simpl.
    rewrite Hw. simpl. rewrite Hf. reflexivity.
  - intros ptr err s1 tr H.
    assert (HP : Permutation (allocs tr) (frees tr)).
    { unfold allocBytes in H. unmonad. rewrite Hmod in H.
      answer (malloc p ctx (len data) s).
      destruct r as [res | e]; simpl in H.
      - destruct (uint32 res =? 0) eqn:Hz.
        + inversion H; subst. simpl. rewrite Hz. constructor.
        + answer (Write (ModMemory m) (uint32 res) data s0).
          destruct r.
          * inversion H.
          * answer (free p ctx (uint32 res) s2).
            inversion H; subst. simpl. rewrite Hz. apply Permutation_refl.
      - inversion H; subst. constructor. }
    split; [exact HP | apply outstanding_balanced; exact HP].
Qed.

(** ** Postconditions of bridge computations

    [post m s Q]: run from [s], the computation [m] does not panic, and
    its value, final state and trace satisfy [Q]. *)

Lemma post_ret {A} (a : A) s (Q : A -> S -> list event -> Prop) :
  Q a s [] -> post (ret a) s Q.
Proof. intros H. exact H. Qed.

Lemma post_call {A} (f : S -> A * S) (ev : A -> event) s
  (Q : A -> S -> list event -> Prop) :
  (forall a s1, f s = (a, s1) -> Q a s1 [ev a]) -> post (call f ev) s Q.
Proof.
  intros H. unfold post, call. destruct (f s) as [a s1]. apply H. reflexivity.
Qed.

Lemma post_bind {A B} (m : @M S A) (f : A -> @M S B) s
  (Q : B -> S -> list event -> Prop) :
  post m s (fun a s1 t1 => post (f a) s1 (fun b s2 t2 => Q b s2 (t1 ++ t2))) ->
  post (bind m f) s Q.
Proof.
  unfold post, bind. destruct (m s) as [[[a | msg] s1] t1]; [| tauto].
  destruct (f a s1) as [[[b | msg] s2] t2]; tauto.
Qed.

Lemma post_weaken {A} (m : @M S A) s (Q Q' : A -> S -> list event -> Prop) :
  post m s Q -> (forall a s1 tr, Q a s1 tr -> Q' a s1 tr) -> post m s Q'.
Proof.
  unfold post. destruct (m s) as [[[a | msg] s1] t1]; [| tauto].
  intros H HQ. apply HQ. exact H.
Qed.

Lemma post_elim {A} (m : @M S A) s (Q : A -> S -> list event -> Prop)
  (o : outcome A) s1 tr :
  post m s Q -> m s = (o, s1, tr) -> exists a, o = Done a /\ Q a s1 tr.
Proof.
  unfold post. intros H E. rewrite E in H.
  destruct o as [a | msg]; [| contradiction]. exists a. split; [reflexivity | exact H].
Qed.

(** ** Traces of the memory helpers *)

Lemma quiet_app (t1 t2 : list event) : quiet t1 -> quiet t2 -> quiet (t1 ++ t2).
Proof. intros H1 H2. apply Forall_app. split; assumption. Qed.

Lemma quiet_nil : quiet [].
Proof. constructor. Qed.

Lemma quiet_no_run (tr : list event) argc argv res :
  quiet tr -> ~ In (EvRun argc argv res) tr.
Proof.
  intros Hq Hin. unfold quiet in Hq. rewrite Forall_forall in Hq.
  specialize (Hq _ Hin). discriminate Hq.
Qed.

Create HintDb bridge.
#[local] Hint Resolve quiet_app quiet_nil : bridge.

Lemma freePtr_post p ctx (ptr : Z) s :
  post (freePtr p ctx ptr) s (fun _ _ tr =>
    quiet tr /\ allocs tr = [] /\
    frees tr = if ptr =? 0 then [] else [ptr]).
Proof.
  unfold post, freePtr. destruct (ptr =? 0); simpl.
  - repeat split; constructor.
  - unmonad. answer (free p ctx ptr s).
    repeat split. repeat constructor.
Qed.

Lemma allocBytes_post p m ctx (data : list byte) s :
  mod_ p = Some m ->
  post (allocBytes p ctx data) s (fun a _ tr =>
    alloc_post (fun tr => allocs tr = frees tr) a tr).
Proof.
  intros Hmod. unfold post, alloc_post, allocBytes. unmonad. rewrite Hmod.
  answer (malloc p ctx (len data) s).
  destruct r as [res | err]; simpl.
  - destruct (uint32 res =? 0) eqn:Hz; simpl.
    + rewrite Hz. repeat split. repeat constructor.
    + answer (Write (ModMemory m) (uint32 res) data s0).
      destruct r; simpl.
      * rewrite Hz. apply Z.eqb_neq in Hz.
        repeat split; [repeat constructor | exact Hz].
      * answer (free p ctx (uint32 res) s1).
        rewrite Hz. repeat split. repeat constructor.
  - repeat split. repeat constructor.
Qed.

Lemma allocString_post p m ctx (str : string) s :
  mod_ p = Some m ->
  post (allocString p ctx str) s (fun a _ tr =>
    alloc_post (fun tr => allocs tr = frees tr) a tr).
Proof. intros Hmod. unfold allocString. eapply allocBytes_post; eassumption. Qed.

Lemma writeArgv_post p m (argvPtr : Z) (ptrs : list Z) :
  mod_ p = Some m ->
  forall (i : Z) s,
    post (writeArgv p argvPtr i ptrs) s (fun _ _ tr =>
      quiet tr /\ allocs tr = [] /\ frees tr = []).
Proof.
  intros Hmod. induction ptrs as [| ptr rest IH]; intros i s.
  - apply post_ret. repeat split. constructor.
  - simpl. unfold modMemory. rewrite Hmod.
    apply post_bind, post_ret, post_bind, post_call.
    intros ok s1 _. eapply post_weaken; [apply IH |].
    intros _ s2 tr (Hq & Ha & Hf). simpl. repeat split; auto.
    constructor; [reflexivity | exact Hq].
Qed.

Lemma allocArgv_post p m ctx (ptrs : list Z) s :
  mod_ p = Some m ->
  post (allocArgv p ctx ptrs) s (fun a _ tr =>
    alloc_post (fun tr => allocs tr = [] /\ frees tr = []) a tr).
Proof.
  intros Hmod. unfold allocArgv. apply post_bind, post_call.
  intros [res | err] s1 _.
  - destruct (uint32 res =? 0) eqn:Hz.
    + apply post_ret. unfold alloc_post. simpl. rewrite Hz.
      repeat split. repeat constructor.
    + apply post_bind. eapply post_weaken; [eapply writeArgv_post, Hmod |].
      intros _ s2 tr (Hq & Ha & Hf). apply post_ret.
      unfold alloc_post. rewrite !app_nil_r. simpl. rewrite Hz, Ha, Hf.
      apply Z.eqb_neq in Hz. repeat split; auto.
      constructor; [reflexivity | exact Hq].
  - apply post_ret. unfold alloc_post. simpl. repeat split. repeat constructor.
Qed.

Lemma freeAll_post p ctx (ptrs : list Z) :
  Forall (fun ptr => ptr <> 0) ptrs ->
  forall s,
    post (freeAll p ctx ptrs) s (fun _ _ tr =>
      quiet tr /\ allocs tr = [] /\ frees tr = ptrs).
Proof.
  induction 1 as [| ptr rest Hnz _ IH]; intros s.
  - apply post_ret. repeat split. constructor.
  - simpl. apply post_bind.
    eapply post_weaken; [apply freePtr_post |].
    intros _ s1 t1 (Hq1 & Ha1 & Hf1).
    eapply post_weaken; [apply IH |].
    intros _ s2 t2 (Hq2 & Ha2 & Hf2).
    apply Z.eqb_neq in Hnz. rewrite Hnz in Hf1.
    rewrite allocs_app, frees_app, Ha1, Ha2, Hf1, Hf2.
    repeat split; auto with bridge.
Qed.

(** ** The argument loop and Run *)

Lemma allocArgs_post p m ctx (args : list string) :
  mod_ p = Some m ->
  forall (done : list Z) s,
    Forall (fun ptr => ptr <> 0) done ->
    post (allocArgs p ctx args done) s (fun r _ tr =>
      quiet tr /\
      match r with
      | (ptrs, None) =>
          Forall (fun ptr => ptr <> 0) ptrs /\
          ptrs = done ++ allocs tr /\ frees tr = []
      | (_, Some _) => Permutation (done ++ allocs tr) (frees tr)
      end).
Proof.
  intros Hmod. induction args as [| arg rest IH]; intros done s Hdone.
  - apply post_ret. simpl. rewrite app_nil_r. repeat split; auto with bridge.
  - simpl. apply post_bind.
    eapply post_weaken; [eapply allocString_post, Hmod |].
    intros [ptr [err |]] s1 t1 [Hq1 H1].
    + apply post_bind.
      eapply post_weaken; [apply freeAll_post, Hdone |].
      intros _ s2 t2 (Hq2 & Ha2 & Hf2). apply post_ret.
      rewrite app_nil_r, allocs_app, frees_app, Ha2, Hf2, H1, app_nil_r.
      split; [auto with bridge | apply Permutation_app_comm].
    + destruct H1 as (Hnz & Ha1 & Hf1).
      eapply post_weaken.
      * apply IH. apply Forall_app. split; [exact Hdone |].
        constructor; [exact Hnz | constructor].
      * intros [ptrs [err |]] s2 t2 [Hq2 H2];
          rewrite allocs_app, frees_app, Ha1, Hf1; simpl;
          (split; [auto with bridge |]).
        -- rewrite <- app_assoc in H2. exact H2.
        -- destruct H2 as (Hall & Hp & Hf2).
           rewrite <- app_assoc in Hp. auto.
Qed.

Ltac split_in H :=
  repeat (apply in_app_or in H; destruct H as [H | H]).

Ltac no_run H :=
  solve [ exfalso; eapply quiet_no_run; [| exact H]; assumption
        | destruct H ].

Lemma Run_post p m ctx (args : list string) s :
  mod_ p = Some m ->
  initialized p = true ->
  post (Run p ctx args) s (fun res _ tr =>
    Permutation (allocs tr) (frees tr) /\
    forall argc argv r, In (EvRun argc argv r) tr -> res = exit_of r).
Proof.
  intros Hmod Hinit. unfold Run. rewrite Hinit. simpl.
  set (args' := if len args =? 0 then _ else _).
  apply post_bind.
  eapply post_weaken; [eapply (allocArgs_post _ _ _ _ Hmod), Forall_nil |].
  intros [ptrs [err |]] s1 t1 [Hq1 H1]; simpl in H1.
  - apply post_ret. rewrite app_nil_r. split; [exact H1 |].
    intros argc argv r Hin. no_run Hin.
  - destruct H1 as (Hnz & Hp & Hf1). apply post_bind.
    eapply post_weaken; [eapply allocArgv_post, Hmod |].
    intros [argvPtr [err |]] s2 t2 [Hq2 H2].
    + destruct H2 as [Ha2 Hf2]. apply post_bind.
      eapply post_weaken; [apply freeAll_post, Hnz |].
      intros _ s3 t3 (Hq3 & Ha3 & Hf3). apply post_ret.
      rewrite !allocs_app, !frees_app, Ha2, Hf2, Ha3, Hf3, Hf1, <- Hp.
      simpl. rewrite !app_nil_r. split; [apply Permutation_refl |].
      intros argc argv r Hin. split_in Hin; no_run Hin.
    + destruct H2 as (Hvnz & Ha2 & Hf2).
      apply post_bind, post_call. intros res s3 _.
      apply post_bind.
      eapply post_weaken; [apply freePtr_post |].
      intros _ s4 t4 (Hq4 & Ha4 & Hf4).
      apply post_bind.
      eapply post_weaken; [apply freeAll_post, Hnz |].
      intros _ s5 t5 (Hq5 & Ha5 & Hf5).
      apply Z.eqb_neq in Hvnz. rewrite Hvnz in Hf4.
      assert (Hgoal :
        Permutation
          (allocs (t1 ++ t2 ++ [EvRun (len args') argvPtr res] ++ t4 ++ t5 ++ []))
          (frees (t1 ++ t2 ++ [EvRun (len args') argvPtr res] ++ t4 ++ t5 ++ []))
        /\ forall argc argv r,
            In (EvRun argc argv r)
               (t1 ++ t2 ++ [EvRun (len args') argvPtr res] ++ t4 ++ t5 ++ []) ->
            exit_of res = exit_of r).
      { split.
        - rewrite !allocs_app, !frees_app, Ha2, Hf2, Ha4, Hf4, Ha5, Hf5, Hf1,
            <- Hp.
          simpl. rewrite !app_nil_r. apply Permutation_app_comm.
        - intros argc argv r Hin. split_in Hin; try no_run Hin.
          destruct Hin as [Heq | []]. inversion Heq. reflexivity. }
      destruct res as [r0 | err]; apply post_ret; exact Hgoal.
Qed.

(** C1: on an instance built with its module and initialized, [Run]
    returns (it does not panic) and the pointers it handed to the guest
    free export are, as a multiset, exactly the pointers the guest
    allocator handed out during the call: every argument string and the
    pointer array.  This holds whatever the guest answers, so also when
    the run export traps or answers a non-zero status.  The count of
    outstanding allocations after the call equals the count before. *)
Theorem Run_frees_every_allocation p m ctx (args : list string) s
  (before : list event) :
  mod_ p = Some m ->
  initialized p = true ->
  args <> [] ->
  exists res s1 tr,
    Run p ctx args s = (Done res, s1, tr) /\
    Permutation (allocs tr) (frees tr) /\
    outstanding (before ++ tr) = outstanding before.
Proof.
  intros Hmod Hinit _.
  destruct (Run p ctx args s) as [[o s1] tr] eqn:E.
  destruct (post_elim _ _ _ _ _ _ (Run_post p m ctx args s Hmod Hinit) E)
    as (res & -> & HP & _).
  exists res, s1, tr. split; [reflexivity |]. split; [exact HP |].
  rewrite outstanding_app, (outstanding_balanced _ HP). lia.
Qed.

(** C5: on an instance built with its module and initialized, whenever
    the run export was invoked during [Run], the answer of [Run] is
    fixed by the export's answer: a status word [r0] gives the exit
    code [int32 r0] (zero or not) with no error; an invocation error
    gives exit code 1 with the run-failure error wrapping it. *)
Theorem Run_exit_status p m ctx (args : list string) s
  (o : outcome (Z * option error)) s1 (tr : list event) (argc argv : Z)
  (res : Z + error) :
  mod_ p = Some m ->
  initialized p = true ->
  Run p ctx args s = (o, s1, tr) ->
  In (EvRun argc argv res) tr ->
  match res with
  | inl r0 => o = Done (int32 r0, None)
  | inr err => o = Done (1, Some ("protoc_run failed: " ++ err)%string)
  end.
Proof.
  intros Hmod Hinit E Hin.
  destruct (post_elim _ _ _ _ _ _ (Run_post p m ctx args s Hmod Hinit) E)
    as (r & -> & _ & Hrun).
  rewrite (Hrun _ _ _ Hin). destruct res; reflexivity.
Qed.

(** ** Close *)

(** C8, as amended: [Close] on an instance that is not initialized
    (never initialized, or closed before) does not invoke the destroy
    export; it still closes the module and answers what that call
    answers.  After any [Close], a second [Close] is of this kind.  When
    [Close] does invoke the destroy export, the error of that call is
    dropped: the instance becomes not initialized and the answer is the
    module close's alone. *)
Theorem Close_destroys_once p ctx s :
  (initialized p = false -> Close p ctx s = closes_module_only p ctx s) /\
  (forall p1 e1 s1 t1,
      Close p ctx s = (Done (p1, e1), s1, t1) ->
      Close p1 ctx s1 = closes_module_only p1 ctx s1) /\
  (forall destroy derr s1,
      initialized p = true ->
      protocDestroy p = Some destroy ->
      destroy ctx s = (derr, s1) ->
      exists e s2 t2,
        closes_module_only (set_initialized false p) ctx s1
          = (Done (set_initialized false p, e), s2, t2) /\
        Close p ctx s
          = (Done (set_initialized false p, e), s2, EvDestroy derr :: t2)).
Proof.
  assert (Hfalse : forall q s0,
             initialized q = false -> Close q ctx s0 = closes_module_only q ctx s0).
  { intros q s0 Hq. unfold Close, closes_module_only. rewrite Hq. unmonad.
    simpl. destruct (mod_ q) as [m |]; [| reflexivity].
    destruct (ModClose m ctx s0) as [e s1]. reflexivity. }
  assert (Hnone : forall q s0,
             protocDestroy q = None -> Close q ctx s0 = closes_module_only q ctx s0).
  { intros q s0 Hq. unfold Close, closes_module_only. rewrite Hq. unmonad.
    destruct (initialized q); simpl;
      (destruct (mod_ q) as [m |]; [| reflexivity]);
      destruct (ModClose m ctx s0) as [e s1]; reflexivity. }
  split; [apply Hfalse | split].
  - intros p1 e1 s1 t1 H.
    destruct (initialized p) eqn:Hinit.
    + destruct (protocDestroy p) as [destroy |] eqn:Hd.
      * apply Hfalse. unfold Close in H. rewrite Hinit, Hd in H. unmonad.
        answer (destroy ctx s).
        destruct (mod_ p) as [m |]; simpl in H.
        -- answer (ModClose m ctx s0). inversion H. reflexivity.
        -- inversion H. reflexivity.
      * apply Hnone. rewrite (Hnone p s Hd) in H.
        unfold closes_module_only in H.
        destruct (mod_ p) as [m |].
        -- destruct (ModClose m ctx s); inversion H; subst; exact Hd.
        -- inversion H; subst; exact Hd.
    + apply Hfalse. rewrite (Hfalse p s Hinit) in H.
      unfold closes_module_only in H.
      destruct (mod_ p) as [m |].
      * destruct (ModClose m ctx s); inversion H; subst; exact Hinit.
      * inversion H; subst; exact Hinit.
  - intros destroy derr s1 Hinit Hd Hcall.
    unfold Close, closes_module_only. rewrite Hinit, Hd. unmonad.
    rewrite Hcall. simpl.
    destruct (mod_ p) as [m |]; simpl.
    + destruct (ModClose m ctx s1) as [e s2]. simpl.
      exists e, s2, [EvModClose e]. split; reflexivity.
    + exists None, s1, []. split; reflexivity.
Qed.

(** ** The default plugin handler *)

(** C9: the default handler builds the same command and gives the same
    answer, from the same state of the operating system, whether the
    search-path flag is true or false. *)
Theorem Communicate_ignores_searchPath
  (cmdRun : @Cmd Ctx -> S -> (option error * list byte * list byte) * S)
  ctx (program : string) (input : list byte) s :
  buildCmd ctx program true input = buildCmd ctx program false input /\
  Communicate (DefaultPluginHandler cmdRun) ctx program true input s
    = Communicate (DefaultPluginHandler cmdRun) ctx program false input s.
Proof. split; reflexivity. Qed.

(** ** The plugin callback *)

Lemma status_set0 (stack : list Z) (v : Z) :
  9 <= len stack -> status (set0 stack v) = int32 v.
Proof.
  destruct stack as [| w rest]; [unfold len; simpl; lia | reflexivity].
Qed.

Lemma short_stack (stack : list Z) : 9 <= len stack -> (len stack <? 9) = false.
Proof. intros H. apply Z.ltb_ge. exact H. Qed.

(** A read of the program name or of the input that fails ends the
    callback at once. *)
Lemma callback_read_failure p ctx m (stack : list Z) s :
  9 <= len stack ->
  Read (ModMemory m) (word stack 0) (word stack 1) s = None \/
  Read (ModMemory m) (word stack 3) (word stack 4) s = None ->
  exists out,
    hostPluginCommunicate p ctx m stack s = (Done out, s, []) /\
    status out = -1.
Proof.
  intros Hlen Hread. exists (set0 stack (EncodeI32 (-1))).
  split; [| rewrite status_set0 by exact Hlen; reflexivity].
  unfold hostPluginCommunicate, word in *. rewrite (short_stack _ Hlen).
  unmonad.
  destruct (Read (ModMemory m) (uint32 (nth 0 stack 0))
              (uint32 (nth 1 stack 0)) s) as [programBytes |];
    [| reflexivity].
  destruct Hread as [Hread | Hread]; [discriminate Hread |].
  rewrite Hread. reflexivity.
Qed.

(** Once both reads succeed the handler is called, the payload is
    allocated, and the slots are written as [slot_protocol] says. *)
Lemma callback_after_reads p ctx m (stack : list Z) s
  (programBytes inputData : list byte) (r : list byte * option error) s1
  (a : Z * option error) s2 (ta : list event) :
  9 <= len stack ->
  Read (ModMemory m) (word stack 0) (word stack 1) s = Some programBytes ->
  Read (ModMemory m) (word stack 3) (word stack 4) s = Some inputData ->
  Communicate (pluginHandler p) ctx (string_of_list_byte programBytes)
    (negb (int32 (nth 2 stack 0) =? 0)) inputData s = (r, s1) ->
  allocBytes p ctx (payload r) s1 = (Done a, s2, ta) ->
  exists out s3 tw,
    hostPluginCommunicate p ctx m stack s
      = (Done out, s3,
         EvCommunicate (string_of_list_byte programBytes)
           (negb (int32 (nth 2 stack 0) =? 0)) inputData r :: ta ++ tw) /\
    status out = fst (slot_protocol stack r a) /\
    writes_of (snd (slot_protocol stack r a)) tw.
Proof.
  intros Hlen Hp Hi Hc Ha.
  unfold hostPluginCommunicate, word in *. rewrite (short_stack _ Hlen).
  unfold writePtr, writeUint32. unmonad. rewrite Hp, Hi, Hc.
  destruct r as [output [errMsg |]], a as [ptr [aerr |]];
    unfold payload in Ha; rewrite Ha; cbn [slot_protocol fst snd].
  - answer (Write (ModMemory m) (uint32 (nth 5 stack 0)) (PutUint32 0) s2).
    answer (Write (ModMemory m) (uint32 (nth 6 stack 0)) (PutUint32 0) s0).
    eexists _, _, _. split; [reflexivity |].
    split; [apply status_set0, Hlen | simpl; tauto].
  - answer (Write (ModMemory m) (uint32 (nth 7 stack 0)) (PutUint32 ptr) s2).
    answer (Write (ModMemory m) (uint32 (nth 8 stack 0))
              (PutUint32 (uint32 (strlen errMsg))) s0).
    answer (Write (ModMemory m) (uint32 (nth 5 stack 0)) (PutUint32 0) s3).
    answer (Write (ModMemory m) (uint32 (nth 6 stack 0)) (PutUint32 0) s4).
    eexists _, _, _. split; [reflexivity |].
    split; [apply status_set0, Hlen | simpl; tauto].
  - exists (set0 stack (EncodeI32 (-1))), s2, [].
    split; [rewrite app_nil_r; reflexivity |].
    split; [apply status_set0, Hlen | exact I].
  - answer (Write (ModMemory m) (uint32 (nth 5 stack 0)) (PutUint32 ptr) s2).
    answer (Write (ModMemory m) (uint32 (nth 6 stack 0))
              (PutUint32 (uint32 (len output))) s0).
    answer (Write (ModMemory m) (uint32 (nth 7 stack 0)) (PutUint32 0) s3).
    answer (Write (ModMemory m) (uint32 (nth 8 stack 0)) (PutUint32 0) s4).
    eexists _, _, _. split; [reflexivity |].
    split; [apply status_set0, Hlen | simpl; tauto].
Qed.

Lemma allocBytes_success_trace p ctx (data : list byte) s (ptr : Z) s1
  (ta : list event) :
  allocBytes p ctx data s = (Done (ptr, None), s1, ta) ->
  ptr <> 0 /\ In (EvWrite ptr data true) ta.
Proof.
  unfold allocBytes. unmonad. intros H.
  answer (malloc p ctx (len data) s).
  destruct r as [res | err]; simpl in H; [| discriminate H].
  destruct (uint32 res =? 0) eqn:Hz; [discriminate H |].
  destruct (mod_ p) as [m |]; [| discriminate H].
  answer (Write (ModMemory m) (uint32 res) data s0).
  destruct r; simpl in H.
  - inversion H; subst. apply Z.eqb_neq in Hz. split; [exact Hz |].
    right. left. reflexivity.
  - answer (free p ctx (uint32 res) s2). discriminate H.
Qed.

Lemma allocBytes_failure_trace p ctx (data : list byte) s (ptr : Z)
  (err : error) s1 (ta : list event) :
  allocBytes p ctx data s = (Done (ptr, Some err), s1, ta) ->
  forallb (fun e => negb (accepted_write e)) ta = true.
Proof.
  unfold allocBytes. unmonad. intros H.
  answer (malloc p ctx (len data) s).
  destruct r as [res | e]; simpl in H; [| inversion H; reflexivity].
  destruct (uint32 res =? 0) eqn:Hz; [inversion H; reflexivity |].
  destruct (mod_ p) as [m |]; [| discriminate H].
  answer (Write (ModMemory m) (uint32 res) data s0).
  destruct r; simpl in H; [discriminate H |].
  answer (free p ctx (uint32 res) s2). inversion H. reflexivity.
Qed.

(** C2, as amended: the status word left for the guest is -1 when the
    read of the program name or of the input fails, and then the
    handler is not invoked and nothing is written; once both reads
    succeed the handler is invoked and the payload (error text or
    output) is copied with [allocBytes], and then
    - handler error, buffer allocated: status 1; writes of the buffer
      pointer and the text length to the error slots, then of zero to
      the output slots;
    - handler error, allocation failed: status 1; writes of zero to the
      output slots only;
    - handler success, allocation failed: status -1; no slot write;
    - handler success, buffer allocated: status 0; writes of the buffer
      pointer and the output length to the output slots, then of zero
      to the error slots.
    A buffer that was allocated has had the payload written to it.
    Slot writes are attempted in this order; whether the memory
    accepted them is not looked at. *)
Theorem callback_status_word p ctx m (stack : list Z) s :
  9 <= len stack ->
  (Read (ModMemory m) (word stack 0) (word stack 1) s = None \/
   Read (ModMemory m) (word stack 3) (word stack 4) s = None ->
   exists out,
     hostPluginCommunicate p ctx m stack s = (Done out, s, []) /\
     status out = -1) /\
  (forall programBytes inputData r s1 a s2 ta,
      Read (ModMemory m) (word stack 0) (word stack 1) s
        = Some programBytes ->
      Read (ModMemory m) (word stack 3) (word stack 4) s = Some inputData ->
      Communicate (pluginHandler p) ctx (string_of_list_byte programBytes)
        (negb (int32 (nth 2 stack 0) =? 0)) inputData s = (r, s1) ->
      allocBytes p ctx (payload r) s1 = (Done a, s2, ta) ->
      exists out s3 tw,
        hostPluginCommunicate p ctx m stack s
          = (Done out, s3,
             EvCommunicate (string_of_list_byte programBytes)
               (negb (int32 (nth 2 stack 0) =? 0)) inputData r :: ta ++ tw) /\
        match r, a with
        | (_, Some errMsg), (errPtr, None) =>
            status out = 1 /\
            In (EvWrite errPtr (list_byte_of_string errMsg) true) ta /\
            writes_of [(word stack 7, PutUint32 errPtr);
                       (word stack 8, PutUint32 (uint32 (strlen errMsg)));
                       (word stack 5, PutUint32 0);
                       (word stack 6, PutUint32 0)] tw
        | (_, Some _), (_, Some _) =>
            status out = 1 /\
            writes_of [(word stack 5, PutUint32 0);
                       (word stack 6, PutUint32 0)] tw
        | (_, None), (_, Some _) => status out = -1 /\ tw = []
        | (output, None), (outPtr, None) =>
            status out = 0 /\
            In (EvWrite outPtr output true) ta /\
            writes_of [(word stack 5, PutUint32 outPtr);
                       (word stack 6, PutUint32 (uint32 (len output)));
                       (word stack 7, PutUint32 0);
                       (word stack 8, PutUint32 0)] tw
        end).
Proof.
  intros Hlen. split; [apply callback_read_failure; exact Hlen |].
  intros programBytes inputData r s1 a s2 ta Hp Hi Hc Ha.
  destruct (callback_after_reads p ctx m stack s _ _ _ _ _ _ _ Hlen Hp Hi Hc Ha)
    as (out & s3 & tw & Heq & Hst & Hw).
  exists out, s3, tw. split; [exact Heq |].
  destruct r as [output [errMsg |]], a as [ptr [aerr |]];
    cbn [slot_protocol fst snd] in Hst, Hw.
  - split; assumption.
  - split; [exact Hst |]. split; [| exact Hw].
    apply (allocBytes_success_trace _ _ _ _ _ _ _ Ha).
  - split; [exact Hst |]. destruct tw; [reflexivity | contradiction].
  - split; [exact Hst |]. split; [| exact Hw].
    apply (allocBytes_success_trace _ _ _ _ _ _ _ Ha).
Qed.

(** C10, as amended: when [allocBytes] fails on the payload, none of
    its own writes was accepted, and
    - after a successful handler run the callback leaves status -1 and
      attempts no slot write at all: its trace is the handler call
      followed by the trace of the failed allocation;
    - after a handler error the callback leaves status 1 and attempts
      exactly two slot writes, zero to the output pointer slot and then
      zero to the output length slot, and none for the error slots.
      The answers of the memory to the two writes are recorded and not
      looked at: an output slot is cleared when the memory accepts its
      write, and is left as it was when the memory rejects it. *)
Theorem callback_allocation_failure p ctx m (stack : list Z) s
  (programBytes inputData : list byte) (r : list byte * option error) s1
  (ptr : Z) (aerr : error) s2 (ta : list event) :
  9 <= len stack ->
  Read (ModMemory m) (word stack 0) (word stack 1) s = Some programBytes ->
  Read (ModMemory m) (word stack 3) (word stack 4) s = Some inputData ->
  Communicate (pluginHandler p) ctx (string_of_list_byte programBytes)
    (negb (int32 (nth 2 stack 0) =? 0)) inputData s = (r, s1) ->
  allocBytes p ctx (payload r) s1 = (Done (ptr, Some aerr), s2, ta) ->
  forallb (fun e => negb (accepted_write e)) ta = true /\
  match snd r with
  | None =>
      exists out,
        hostPluginCommunicate p ctx m stack s
          = (Done out, s2,
             EvCommunicate (string_of_list_byte programBytes)
               (negb (int32 (nth 2 stack 0) =? 0)) inputData r :: ta) /\
        status out = -1
  | Some _ =>
      exists out ok1 s3 ok2 s4,
        Write (ModMemory m) (word stack 5) (PutUint32 0) s2 = (ok1, s3) /\
        Write (ModMemory m) (word stack 6) (PutUint32 0) s3 = (ok2, s4) /\
        hostPluginCommunicate p ctx m stack s
          = (Done out, s4,
             EvCommunicate (string_of_list_byte programBytes)
               (negb (int32 (nth 2 stack 0) =? 0)) inputData r
               :: ta ++ [EvWrite (word stack 5) (PutUint32 0) ok1;
                         EvWrite (word stack 6) (PutUint32 0) ok2]) /\
        status out = 1
  end.
Proof.
  intros Hlen Hp Hi Hc Ha.
  split; [apply (allocBytes_failure_trace _ _ _ _ _ _ _ _ Ha) |].
  destruct r as [output [errMsg |]]; cbn [snd].
  - destruct (Write (ModMemory m) (word stack 5) (PutUint32 0) s2)
      as [ok1 s3] eqn:Hw1.
    destruct (Write (ModMemory m) (word stack 6) (PutUint32 0) s3)
      as [ok2 s4] eqn:Hw2.
    exists (set0 stack (EncodeI32 1)), ok1, s3, ok2, s4.
    split; [first [exact Hw1 | reflexivity] |].
    split; [first [exact Hw2 | reflexivity] |].
    split; [| apply status_set0, Hlen].
    unfold hostPluginCommunicate, word in *. rewrite (short_stack _ Hlen).
    unfold writePtr, writeUint32. unmonad. rewrite Hp, Hi, Hc.
    unfold payload in Ha. rewrite Ha. simpl. rewrite Hw1. simpl.
    rewrite Hw2. reflexivity.
  - exists (set0 stack (EncodeI32 (-1))).
    split; [| apply status_set0, Hlen].
    unfold hostPluginCommunicate, word in *. rewrite (short_stack _ Hlen).
    unmonad. rewrite Hp, Hi, Hc. unfold payload in Ha. rewrite Ha.
    rewrite app_nil_r. reflexivity.
Qed.

(** * More properties of the bridge *)

(** ** The byte layout of words and strings *)

Lemma byte_of_Z_value (z : Z) : Z.of_N (Byte.to_N (byte_of_Z z)) = z mod 2 ^ 8.
Proof.
  assert (Hb : 0 <= z mod 256 < 256) by (apply Z.mod_pos_bound; lia).
  change (2 ^ 8) with 256. unfold byte_of_Z.
  destruct (Byte.of_N (Z.to_N (z mod 256))) as [b |] eqn:E.
  - apply Byte.to_of_N in E. rewrite E. apply Z2N.id. lia.
  - apply Byte.of_N_None_iff in E. lia.
Qed.

Lemma byte_lane_bit (v k n : Z) :
  0 <= k -> 0 <= n ->
  Z.testbit (Z.shiftl (Z.shiftr v k mod 2 ^ 8) k) n
    = (k <=? n) && (n <? k + 8) && Z.testbit v n.
Proof.
  intros Hk Hn. destruct (Z.leb_spec k n) as [Hle | Hlt]; cbn [andb].
  - rewrite Z.shiftl_spec, Z.testbit_mod_pow2, Z.shiftr_spec by lia.
    replace (n - k + k) with n by lia.
    destruct (Z.ltb_spec (n - k) 8), (Z.ltb_spec n (k + 8));
      try lia; reflexivity.
  - apply Z.shiftl_spec_low. exact Hlt.
Qed.

(** X1: the four bytes that [writePtr], [writeUint32] and [allocArgv]
    send for a value are its 32-bit little-endian encoding: a
    little-endian reader finds the value modulo 2^32 in them. *)
Theorem PutUint32_little_endian (v : Z) :
  len (PutUint32 v) = 4 /\ Uint32 (PutUint32 v) = uint32 v.
Proof.
  split; [reflexivity |].
  unfold Uint32, PutUint32, uint32. rewrite !byte_of_Z_value.
  apply Z.bits_inj'. intros n Hn.
  rewrite !Z.lor_spec, !byte_lane_bit, !Z.testbit_mod_pow2 by lia.
  destruct (Z.testbit v n); rewrite ?andb_false_r, ?andb_true_r;
    [| reflexivity].
  destruct (Z.ltb_spec n 8), (Z.leb_spec 8 n), (Z.ltb_spec n (8 + 8)),
    (Z.leb_spec 16 n), (Z.ltb_spec n (16 + 8)), (Z.leb_spec 24 n),
    (Z.ltb_spec n (24 + 8)), (Z.ltb_spec n 32); try lia; reflexivity.
Qed.

Lemma len_list_byte_of_string (str : string) :
  len (list_byte_of_string str) = strlen str.
Proof.
  unfold len, strlen, list_byte_of_string. rewrite length_map. f_equal.
  induction str as [| c rest IH]; simpl; [reflexivity | rewrite IH; reflexivity].
Qed.

(** X2: [allocString] asks the allocator for the length of the string
    plus one and, when the pointer is not null and the write is
    accepted, has written the bytes of the string followed by a single
    zero byte at that pointer, which it returns. *)
Theorem allocString_null_terminated p m ctx (str : string) s (res : Z) s1 s2 :
  mod_ p = Some m ->
  malloc p ctx (strlen str + 1) s = (inl res, s1) ->
  uint32 res <> 0 ->
  Write (ModMemory m) (uint32 res) (list_byte_of_string str ++ [x00]) s1
    = (true, s2) ->
  allocString p ctx str s
    = (Done (uint32 res, None), s2,
       [EvMalloc (strlen str + 1) (inl res);
        EvWrite (uint32 res) (list_byte_of_string str ++ [x00]) true]).
Proof.
  intros Hmod Hm Hnz Hw. unfold allocString, allocBytes.
  assert (Hlen : len (list_byte_of_string str ++ [x00]) = strlen str + 1).
  { rewrite <- len_list_byte_of_string. unfold len.
    rewrite length_app. simpl. lia. }
  rewrite Hlen. unmonad. rewrite Hm. simpl.
  apply Z.eqb_neq in Hnz. rewrite Hnz, Hmod. simpl. rewrite Hw. reflexivity.
Qed.

(** X3: on an instance with its module, [allocBytes] returns (it does
    not panic); it returns a non-zero pointer exactly when it returns
    no error, and its trace then holds one outstanding allocation and
    otherwise none.  An error of the malloc call itself is returned
    unchanged, after that call alone. *)
Theorem allocBytes_outcome p m ctx (data : list byte) s :
  mod_ p = Some m ->
  (exists ptr err s1 tr,
      allocBytes p ctx data s = (Done (ptr, err), s1, tr) /\
      (err = None <-> ptr <> 0) /\
      outstanding tr = match err with Some _ => 0 | None => 1 end) /\
  (forall e s1,
      malloc p ctx (len data) s = (inr e, s1) ->
      allocBytes p ctx data s
        = (Done (0, Some e), s1, [EvMalloc (len data) (inr e)])).
Proof.
  intros Hmod. split.
  - unfold allocBytes. unmonad. rewrite Hmod.
    answer (malloc p ctx (len data) s).
    destruct r as [res | e]; simpl.
    + destruct (uint32 res =? 0) eqn:Hz; simpl.
      * eexists _, _, _, _. split; [reflexivity |].
        split; [split; [discriminate | intros H; contradiction H; reflexivity] |].
        unfold outstanding. simpl. rewrite Hz. reflexivity.
      * answer (Write (ModMemory m) (uint32 res) data s0).
        destruct r; simpl.
        -- eexists _, _, _, _. split; [reflexivity |].
           apply Z.eqb_neq in Hz. split; [split; auto |].
           unfold outstanding. simpl. apply Z.eqb_neq in Hz. rewrite Hz.
           reflexivity.
        -- answer (free p ctx (uint32 res) s1).
           eexists _, _, _, _. split; [reflexivity |].
           split; [split; [discriminate | intros H; contradiction H; reflexivity] |].
           unfold outstanding. simpl. rewrite Hz. reflexivity.
    + eexists _, _, _, _. split; [reflexivity |].
      split; [split; [discriminate | intros H; contradiction H; reflexivity] |].
      reflexivity.
  - intros e s1 Hm. unfold allocBytes. unmonad. rewrite Hm. reflexivity.
Qed.

(** ** The pointer array *)

Lemma uint32_add_uint32 (a b : Z) : uint32 (a + uint32 b) = uint32 (a + b).
Proof. unfold uint32. apply Zplus_mod_idemp_r. Qed.

Lemma writeArgv_layout p m (argvPtr : Z) (ptrs : list Z) :
  mod_ p = Some m ->
  forall (k : Z) s o s1 (tw : list event),
    writeArgv p argvPtr k ptrs s = (o, s1, tw) ->
    o = Done tt /\
    List.length tw = List.length ptrs /\
    forall i, (i < List.length ptrs)%nat ->
      exists ok,
        nth_error tw i
          = Some (EvWrite (uint32 (argvPtr + 4 * (k + Z.of_nat i)))
                    (PutUint32 (nth i ptrs 0)) ok).
Proof.
  intros Hmod. induction ptrs as [| ptr rest IH]; intros k s o s1 tw H.
  - simpl in H. inversion H; subst. repeat split. intros i Hi. inversion Hi.
  - cbn [writeArgv] in H. unfold modMemory in H. rewrite Hmod in H.
    unfold bind, ret, memWrite, call in H.
    destruct (Write (ModMemory m) (uint32 (argvPtr + uint32 (k * 4)))
                (PutUint32 ptr) s) as [r s0].
    destruct (writeArgv p argvPtr (k + 1) rest s0) as [[o2 s2] t2] eqn:E2.
    destruct (IH _ _ _ _ _ E2) as (-> & Hlen & Hnth).
    cbv beta iota in H. inversion H; subst.
    split; [reflexivity |]. split; [cbn [List.length app]; lia |].
    intros [| j] Hj.
    + exists r. cbn [nth_error app nth]. rewrite uint32_add_uint32.
      replace (4 * (k + Z.of_nat 0)) with (k * 4) by lia. reflexivity.
    + destruct (Hnth j ltac:(cbn [List.length] in Hj; lia)) as [ok Hok].
      exists ok. cbn [nth_error app nth]. rewrite Hok.
      replace (4 * (k + 1 + Z.of_nat j)) with (4 * (k + Z.of_nat (Datatypes.S j)))
        by lia.
      reflexivity.
Qed.

(** X4: when [allocArgv] succeeds, it has asked the allocator for four
    bytes per pointer and has attempted, in order, one write per
    pointer: the little-endian bytes of pointer [i] at offset
    [argvPtr + 4 * i] (modulo 2^32).  It returns the non-null pointer
    the allocator answered. *)
Theorem allocArgv_layout p m ctx (ptrs : list Z) s (argvPtr : Z) s1
  (tr : list event) :
  mod_ p = Some m ->
  allocArgv p ctx ptrs s = (Done (argvPtr, None), s1, tr) ->
  exists res tw,
    tr = EvMalloc (4 * len ptrs) (inl res) :: tw /\
    argvPtr = uint32 res /\ argvPtr <> 0 /\
    List.length tw = List.length ptrs /\
    forall i, (i < List.length ptrs)%nat ->
      exists ok,
        nth_error tw i
          = Some (EvWrite (uint32 (argvPtr + 4 * Z.of_nat i))
                    (PutUint32 (nth i ptrs 0)) ok).
Proof.
  intros Hmod H. unfold allocArgv in H. unfold bind at 1, call in H.
  destruct (malloc p ctx (len ptrs * 4) s) as [[res | e] s0] eqn:Em;
    [| discriminate H].
  destruct (uint32 res =? 0) eqn:Hz; [discriminate H |].
  unfold bind, ret in H.
  destruct (writeArgv p (uint32 res) 0 ptrs s0) as [[o2 s2] tw] eqn:E2.
  destruct (writeArgv_layout p m _ _ Hmod _ _ _ _ _ E2) as (-> & Hlen & Hnth).
  inversion H; subst. exists res, tw.
  rewrite app_nil_r, (Z.mul_comm 4). apply Z.eqb_neq in Hz.
  repeat split; auto.
Qed.

(** X5: [allocArgv] fails only through the allocator.  When the malloc
    call fails or answers the null pointer, the error is the call's own
    or the null-pointer error, the malloc call is the whole trace and
    nothing is written or freed.  When the allocator answers a non-null
    pointer, [allocArgv] succeeds whatever the memory answers to the
    writes. *)
Theorem allocArgv_fails_only_on_malloc p m ctx (ptrs : list Z) s :
  mod_ p = Some m ->
  (forall res s1,
      malloc p ctx (len ptrs * 4) s = (inl res, s1) ->
      uint32 res <> 0 ->
      exists s2 tr, allocArgv p ctx ptrs s = (Done (uint32 res, None), s2, tr)) /\
  (forall a e s1 tr,
      allocArgv p ctx ptrs s = (Done (a, Some e), s1, tr) ->
      a = 0 /\
      exists r,
        malloc p ctx (len ptrs * 4) s = (r, s1) /\
        tr = [EvMalloc (len ptrs * 4) r] /\
        (r = inr e \/
         exists res,
           r = inl res /\ uint32 res = 0 /\
           e = "malloc returned null for argv"%string)).
Proof.
  intros Hmod. split.
  - intros res s1 Hm Hnz. unfold allocArgv. unfold bind at 1, call.
    rewrite Hm. apply Z.eqb_neq in Hnz. rewrite Hnz. unfold bind, ret.
    destruct (writeArgv p (uint32 res) 0 ptrs s1) as [[o2 s2] tw] eqn:E2.
    destruct (writeArgv_layout p m _ _ Hmod _ _ _ _ _ E2) as (-> & _ & _).
    eexists _, _. reflexivity.
  - intros a e s1 tr H. unfold allocArgv in H. unfold bind at 1, call in H.
    destruct (malloc p ctx (len ptrs * 4) s) as [[res | e0] s0] eqn:Em.
    + destruct (uint32 res =? 0) eqn:Hz.
      * unfold ret in H. inversion H; subst. split; [reflexivity |].
        exists (inl res). apply Z.eqb_eq in Hz.
        repeat split. right. exists res. repeat split. exact Hz.
      * unfold bind, ret in H.
        destruct (writeArgv p (uint32 res) 0 ptrs s0) as [[[[] | msg] s2] tw];
          discriminate H.
    + unfold ret in H. inversion H; subst. split; [reflexivity |].
      exists (inr e). repeat split. left. reflexivity.
Qed.

(** ** The shape of a Run *)

Lemma Run_shape p m ctx (args : list string) s :
  mod_ p = Some m ->
  initialized p = true ->
  post (Run p ctx args) s (fun res _ tr =>
    (quiet tr /\ exists e, res = (1, Some e)) \/
    (exists t1 argv r t2,
        tr = t1 ++ EvRun (len (effective_args args)) argv r :: t2 /\
        quiet t1 /\ quiet t2 /\ frees t1 = [] /\ allocs t2 = [] /\
        In argv (allocs t1) /\ Permutation (allocs t1) (frees t2) /\
        res = exit_of r)).
Proof.
  intros Hmod Hinit. unfold Run. rewrite Hinit. simpl.
  fold (effective_args args).
  apply post_bind.
  eapply post_weaken; [eapply (allocArgs_post _ _ _ _ Hmod), Forall_nil |].
  intros [ptrs [err |]] s1 t1 [Hq1 H1]; simpl in H1.
  - apply post_ret. left. rewrite app_nil_r. split; [exact Hq1 |].
    exists err. reflexivity.
  - destruct H1 as (Hnz & Hp & Hf1). apply post_bind.
    eapply post_weaken; [eapply allocArgv_post, Hmod |].
    intros [argvPtr [err |]] s2 t2 [Hq2 H2].
    + apply post_bind.
      eapply post_weaken; [apply freeAll_post, Hnz |].
      intros _ s3 t3 (Hq3 & Ha3 & Hf3). apply post_ret. left.
      split; [auto with bridge |]. exists err. reflexivity.
    + destruct H2 as (Hvnz & Ha2 & Hf2).
      apply post_bind, post_call. intros res s3 _.
      apply post_bind.
      eapply post_weaken; [apply freePtr_post |].
      intros _ s4 t4 (Hq4 & Ha4 & Hf4).
      apply post_bind.
      eapply post_weaken; [apply freeAll_post, Hnz |].
      intros _ s5 t5 (Hq5 & Ha5 & Hf5).
      apply Z.eqb_neq in Hvnz. rewrite Hvnz in Hf4.
      assert (Hgoal :
        exists u1 argv r u2,
          t1 ++ t2 ++ [EvRun (len (effective_args args)) argvPtr res]
             ++ t4 ++ t5 ++ []
            = u1 ++ EvRun (len (effective_args args)) argv r :: u2 /\
          quiet u1 /\ quiet u2 /\ frees u1 = [] /\ allocs u2 = [] /\
          In argv (allocs u1) /\ Permutation (allocs u1) (frees u2) /\
          exit_of res = exit_of r).
      { exists (t1 ++ t2), argvPtr, res, (t4 ++ t5 ++ []).
        split; [rewrite <- app_assoc; reflexivity |].
        rewrite !allocs_app, !frees_app, Ha2, Hf2, Ha4, Hf4, Ha5, Hf5, Hf1.
        simpl. rewrite app_nil_r.
        repeat split; auto with bridge.
        - apply in_or_app. right. left. reflexivity.
        - rewrite <- Hp, ?app_nil_r. exact (Permutation_app_comm ptrs [argvPtr]). }
      destruct res as [r0 | err]; apply post_ret; right; exact Hgoal.
Qed.

(** X6: on an initialized instance with its module, [Run] returns
    exit code 1 whenever it returns an error, and it returns no error
    exactly when the run export was invoked and answered a status
    word. *)
Theorem Run_error_iff_no_status p m ctx (args : list string) s
  (o : outcome (Z * option error)) s1 (tr : list event) :
  mod_ p = Some m ->
  initialized p = true ->
  Run p ctx args s = (o, s1, tr) ->
  exists code err,
    o = Done (code, err) /\
    (forall e, err = Some e -> code = 1) /\
    (err = None <->
     exists argc argv r0, In (EvRun argc argv (inl r0)) tr).
Proof.
  intros Hmod Hinit E.
  destruct (post_elim _ _ _ _ _ _ (Run_shape p m ctx args s Hmod Hinit) E)
    as ([code err] & -> & [[Hq [e He]] | H]).
  - inversion He; subst. exists 1, (Some e). split; [reflexivity |].
    split; [reflexivity |]. split; [discriminate |].
    intros (argc & argv & r0 & Hin). no_run Hin.
  - destruct H as (t1 & argv & r & t2 & -> & Hq1 & Hq2 & _ & _ & _ & _ & He).
    exists code, err. split; [reflexivity |].
    destruct r as [r0 | e0]; simpl in He; inversion He; subst.
    + split; [discriminate |]. split; [| reflexivity].
      intros _. exists (len (effective_args args)), argv, r0.
      apply in_or_app. right. left. reflexivity.
    + split; [reflexivity |]. split; [discriminate |].
      intros (argc & argv' & r0 & Hin).
      apply in_app_or in Hin. destruct Hin as [Hin | [Hin | Hin]];
        [no_run Hin | discriminate Hin | no_run Hin].
Qed.

(** X7: when [Run] invokes the run export, it does so once, with the
    number of arguments as [argc] (one when the list is empty: the
    program name is supplied) and with an [argv] that is an allocation
    of this call.  Nothing has been freed before the export is invoked,
    nothing is allocated after it, and every allocation made before it
    is freed after it: the argument vector is live for the whole guest
    call. *)
Theorem Run_arguments_live p m ctx (args : list string) s
  (o : outcome (Z * option error)) s1 (tr : list event) (argc argv : Z)
  (r : Z + error) :
  mod_ p = Some m ->
  initialized p = true ->
  Run p ctx args s = (o, s1, tr) ->
  In (EvRun argc argv r) tr ->
  argc = len (effective_args args) /\
  exists t1 t2,
    tr = t1 ++ EvRun argc argv r :: t2 /\
    quiet t1 /\ quiet t2 /\
    frees t1 = [] /\ allocs t2 = [] /\
    In argv (allocs t1) /\ Permutation (allocs t1) (frees t2).
Proof.
  intros Hmod Hinit E Hin.
  destruct (post_elim _ _ _ _ _ _ (Run_shape p m ctx args s Hmod Hinit) E)
    as (res & -> & [[Hq _] | H]).
  - no_run Hin.
  - destruct H as (t1 & argv' & r' & t2 & -> & Hq1 & Hq2 & Hf & Ha & Hi & HP & _).
    apply in_app_or in Hin. destruct Hin as [Hin | [Hin | Hin]];
      [no_run Hin | | no_run Hin].
    inversion Hin; subst. split; [reflexivity |].
    exists t1, t2. repeat split; assumption.
Qed.

(** ** Init and Close, once more *)

(** X8: [Init] changes nothing of the instance but the flag, and the
    flag is set exactly when [Init] returns no error.  When [Init]
    fails, the instance is returned as it was, the error is the wrapped
    error of the call or the status error, and a later [Init] invokes
    the init export again. *)
Theorem Init_outcome p ctx s (o : outcome (@Protoc Ctx S * option error)) s1
  (t1 : list event) :
  Init p ctx s = (o, s1, t1) ->
  exists p1 err,
    o = Done (p1, err) /\
    (p1 = p \/ p1 = set_initialized true p) /\
    (err = None <-> initialized p1 = true) /\
    (forall e, err = Some e ->
       p1 = p /\
       (exists r,
           protocInit p ctx s = (r, s1) /\ t1 = [EvInit r] /\
           match r with
           | inr cause => e = ("protoc_init failed: " ++ cause)%string
           | inl res =>
               int32 res <> 0 /\ e = "protoc_init returned error"%string
           end) /\
       forall s2, exists r2 s3 o2,
         protocInit p ctx s2 = (r2, s3) /\
         Init p1 ctx s2 = (o2, s3, [EvInit r2])).
Proof.
  intros H. unfold Init in H. destruct (initialized p) eqn:Hinit.
  - unfold ret in H. inversion H; subst. exists p, None.
    split; [reflexivity |]. split; [left; reflexivity |].
    split; [tauto |]. discriminate.
  - unmonad. answer (protocInit p ctx s).
    assert (Hretry : forall s2, exists r2 s3 o2,
               protocInit p ctx s2 = (r2, s3) /\
               Init p ctx s2 = (o2, s3, [EvInit r2])).
    { intros s2. unfold Init. rewrite Hinit. unmonad.
      destruct (protocInit p ctx s2) as [[res | cause] s3]; simpl.
      - destruct (int32 res =? 0); eexists _, _, _; split; reflexivity.
      - eexists _, _, _; split; reflexivity. }
    destruct r as [res | cause]; simpl in H.
    + destruct (int32 res =? 0) eqn:Hz; simpl in H; inversion H; subst.
      * exists (set_initialized true p), None.
        split; [reflexivity |]. split; [right; reflexivity |].
        split; [split; reflexivity |]. discriminate.
      * exists p, (Some "protoc_init returned error"%string).
        split; [reflexivity |]. split; [left; reflexivity |].
        split; [split; [discriminate | rewrite Hinit; discriminate] |].
        intros e He. inversion He; subst. split; [reflexivity |].
        split; [| exact Hretry].
        exists (inl res). apply Z.eqb_neq in Hz. repeat split. exact Hz.
    + inversion H; subst.
      exists p, (Some ("protoc_init failed: " ++ cause)%string).
      split; [reflexivity |]. split; [left; reflexivity |].
      split; [split; [discriminate | rewrite Hinit; discriminate] |].
      intros e He. inversion He; subst. split; [reflexivity |].
      split; [| exact Hretry].
      exists (inr cause). repeat split.
Qed.

Lemma Close_outcome p ctx s :
  exists p1 e s1 t1,
    Close p ctx s = (Done (p1, e), s1, t1) /\
    (p1 = p \/ p1 = set_initialized false p) /\
    allocs t1 = [] /\ frees t1 = [] /\
    lifecycle_ok (initialized p) t1 = true /\
    lifecycle_state (initialized p) t1 = initialized p1 /\
    (protocDestroy p <> None -> initialized p1 = false).
Proof.
  unfold Close. unmonad.
  destruct (initialized p) eqn:Hinit;
    [destruct (protocDestroy p) as [destroy |] eqn:Hd |].
  - destruct (destroy ctx s) as [derr s0]. simpl.
    destruct (mod_ p) as [m |]; simpl.
    + destruct (ModClose m ctx s0) as [e s1]. simpl.
      eexists _, _, _, _. split; [reflexivity |].
      repeat split; auto.
    + eexists _, _, _, _. split; [reflexivity |]. repeat split; auto.
  - simpl. destruct (mod_ p) as [m |]; simpl.
    + destruct (ModClose m ctx s) as [e s1]. simpl.
      eexists _, _, _, _. split; [reflexivity |].
      repeat split; auto. intros H; contradiction H; reflexivity.
    + eexists _, _, _, _. split; [reflexivity |]. repeat split; auto.
      intros H; contradiction H; reflexivity.
  - simpl. destruct (mod_ p) as [m |]; simpl.
    + destruct (ModClose m ctx s) as [e s1]. simpl.
      eexists _, _, _, _. split; [reflexivity |]. repeat split; auto.
    + eexists _, _, _, _. split; [reflexivity |]. repeat split; auto.
Qed.

Lemma Run_requires_Init' p ctx (args : list string) s :
  initialized p = false ->
  Run p ctx args s
    = (Done (1, Some "protoc not initialized, call Init() first"%string),
       s, []).
Proof. intros Hinit. unfold Run. rewrite Hinit. reflexivity. Qed.

(** X9: after [Close] on an instance whose destroy export is set, the
    instance is not initialized: [Run] refuses with the not-initialized
    error and touches nothing.  [Init] does not refuse by itself: it
    invokes the init export again, and when that call fails, as it
    does on an engine that rejects calls on a closed module, [Init]
    returns the wrapped error and the instance stays not
    initialized. *)
Theorem Close_resets_lifecycle p ctx s p1 (e : option error) s1
  (t1 : list event) :
  protocDestroy p <> None ->
  Close p ctx s = (Done (p1, e), s1, t1) ->
  initialized p1 = false /\
  (forall args s2,
      Run p1 ctx args s2
        = (Done (1, Some "protoc not initialized, call Init() first"%string),
           s2, [])) /\
  (forall s2, exists r s3 o,
      protocInit p ctx s2 = (r, s3) /\
      Init p1 ctx s2 = (o, s3, [EvInit r]) /\
      (forall cause, r = inr cause ->
         o = Done (p1, Some ("protoc_init failed: " ++ cause)%string))).
Proof.
  intros Hd H.
  destruct (Close_outcome p ctx s)
    as (q & e' & s' & t' & Hc & Hq & _ & _ & _ & _ & Hoff).
  rewrite Hc in H. inversion H; subst. specialize (Hoff Hd).
  split; [exact Hoff |]. split.
  - intros args s2. apply Run_requires_Init'. exact Hoff.
  - intros s2. unfold Init. rewrite Hoff. unmonad.
    assert (Hpi : protocInit p1 = protocInit p)
      by (destruct Hq as [-> | ->]; reflexivity).
    rewrite Hpi.
    destruct (protocInit p ctx s2) as [[res | cause] s3]; simpl.
    + destruct (int32 res =? 0); eexists _, _, _;
        (split; [reflexivity |]); (split; [reflexivity |]);
        intros cause Hr; discriminate Hr.
    + eexists _, _, _. split; [reflexivity |]. split; [reflexivity |].
      intros cause' Hr. inversion Hr; subst. reflexivity.
Qed.

(** ** Whole sessions *)

Lemma lifecycle_app (t1 t2 : list event) :
  forall b,
    lifecycle_ok b (t1 ++ t2)
      = lifecycle_ok b t1 && lifecycle_ok (lifecycle_state b t1) t2 /\
    lifecycle_state b (t1 ++ t2) = lifecycle_state (lifecycle_state b t1) t2.
Proof.
  induction t1 as [| e rest IH]; intros b; [split; reflexivity |].
  destruct e; cbn [app lifecycle_ok lifecycle_state];
    try (destruct (IH b) as [H1 H2]; split; assumption).
  - destruct (IH (match res with inl r => int32 r =? 0 | inr _ => false end))
      as [H1 H2].
    split; [rewrite H1; apply andb_assoc | exact H2].
  - destruct (IH b) as [H1 H2].
    split; [rewrite H1; apply andb_assoc | exact H2].
  - destruct (IH false) as [H1 H2].
    split; [rewrite H1; apply andb_assoc | exact H2].
Qed.

Lemma quiet_lifecycle (tr : list event) (b : bool) :
  quiet tr -> lifecycle_ok b tr = true /\ lifecycle_state b tr = b.
Proof.
  induction 1 as [| e rest He _ IH]; [split; reflexivity |].
  destruct e; try discriminate He; exact IH.
Qed.

Lemma Init_lifecycle p ctx s :
  exists p1 err s1 t1,
    Init p ctx s = (Done (p1, err), s1, t1) /\
    (p1 = p \/ p1 = set_initialized true p) /\
    allocs t1 = [] /\ frees t1 = [] /\
    lifecycle_ok (initialized p) t1 = true /\
    lifecycle_state (initialized p) t1 = initialized p1.
Proof.
  unfold Init. destruct (initialized p) eqn:Hinit.
  - eexists _, _, _, _. split; [reflexivity |].
    repeat split; auto.
  - unmonad. destruct (protocInit p ctx s) as [[res | cause] s1]; simpl.
    + destruct (int32 res =? 0) eqn:Hz; simpl;
        eexists _, _, _, _; (split; [reflexivity |]);
        cbn [lifecycle_ok lifecycle_state negb andb]; rewrite Hz;
        repeat split; auto.
    + eexists _, _, _, _. split; [reflexivity |]. repeat split; auto.
Qed.

Lemma Run_lifecycle p m ctx (args : list string) s :
  mod_ p = Some m ->
  exists res s1 tr,
    Run p ctx args s = (Done res, s1, tr) /\
    Permutation (allocs tr) (frees tr) /\
    lifecycle_ok (initialized p) tr = true /\
    lifecycle_state (initialized p) tr = initialized p.
Proof.
  intros Hmod. destruct (initialized p) eqn:Hinit.
  - destruct (Run p ctx args s) as [[o s1] tr] eqn:E.
    destruct (post_elim _ _ _ _ _ _ (Run_post p m ctx args s Hmod Hinit) E)
      as (res & -> & HP & _).
    exists res, s1, tr. split; [reflexivity |]. split; [exact HP |].
    destruct (post_elim _ _ _ _ _ _ (Run_shape p m ctx args s Hmod Hinit) E)
      as (res' & _ & [[Hq _] | H]).
    + apply quiet_lifecycle. exact Hq.
    + destruct H as (t1 & argv & r & t2 & -> & Hq1 & Hq2 & _).
      destruct (lifecycle_app t1 (EvRun (len (effective_args args)) argv r :: t2)
                  true) as [H1 H2].
      destruct (quiet_lifecycle t1 true Hq1) as [H3 H4].
      destruct (quiet_lifecycle t2 true Hq2) as [H5 H6].
      rewrite H1, H2, H3, H4. cbn [lifecycle_ok lifecycle_state andb].
      split; assumption.
  - rewrite (Run_requires_Init' p ctx args s Hinit).
    eexists _, _, _. split; [reflexivity |]. repeat split. constructor.
Qed.

Lemma session_post m ctx (reqs : list request) :
  forall p s (o : outcome (@Protoc Ctx S)) s1 (tr : list event),
    mod_ p = Some m ->
    session p ctx reqs s = (o, s1, tr) ->
    exists p1,
      o = Done p1 /\ mod_ p1 = Some m /\
      Permutation (allocs tr) (frees tr) /\
      lifecycle_ok (initialized p) tr = true /\
      lifecycle_state (initialized p) tr = initialized p1.
Proof.
  induction reqs as [| req rest IH]; intros p s o s1 tr Hmod H.
  - simpl in H. inversion H; subst. exists p. repeat split; auto.
  - destruct req as [| args |]; cbn [session] in H; unfold bind in H.
    + destruct (Init_lifecycle p ctx s)
        as (p1 & err & s2 & t1 & Hi & Hp & Ha & Hf & Hok & Hst).
      rewrite Hi in H. cbn [fst] in H.
      destruct (session p1 ctx rest s2) as [[o2 s3] t2] eqn:E2.
      assert (Hmod1 : mod_ p1 = Some m)
        by (destruct Hp as [-> | ->]; exact Hmod).
      destruct (IH _ _ _ _ _ Hmod1 E2) as (p2 & -> & Hm2 & HP & Hok2 & Hst2).
      inversion H; subst. exists p2.
      destruct (lifecycle_app t1 t2 (initialized p)) as [H1 H2].
      rewrite allocs_app, frees_app, Ha, Hf, H1, H2, Hok, Hst.
      repeat split; auto.
    + destruct (Run_lifecycle p m ctx args s Hmod)
        as (res & s2 & t1 & Hr & HP1 & Hok & Hst).
      rewrite Hr in H.
      destruct (session p ctx rest s2) as [[o2 s3] t2] eqn:E2.
      destruct (IH _ _ _ _ _ Hmod E2) as (p2 & -> & Hm2 & HP & Hok2 & Hst2).
      inversion H; subst. exists p2.
      destruct (lifecycle_app t1 t2 (initialized p)) as [H1 H2].
      rewrite allocs_app, frees_app, H1, H2, Hok, Hst.
      repeat split; auto. apply Permutation_app; assumption.
    + destruct (Close_outcome p ctx s)
        as (p1 & e & s2 & t1 & Hc & Hp & Ha & Hf & Hok & Hst & _).
      rewrite Hc in H. cbn [fst] in H.
      destruct (session p1 ctx rest s2) as [[o2 s3] t2] eqn:E2.
      assert (Hmod1 : mod_ p1 = Some m)
        by (destruct Hp as [-> | ->]; exact Hmod).
      destruct (IH _ _ _ _ _ Hmod1 E2) as (p2 & -> & Hm2 & HP & Hok2 & Hst2).
      inversion H; subst. exists p2.
      destruct (lifecycle_app t1 t2 (initialized p)) as [H1 H2].
      rewrite allocs_app, frees_app, Ha, Hf, H1, H2, Hok, Hst.
      repeat split; auto.
Qed.

(** X10: whatever sequence of [Init], [Run] and [Close] calls a client
    makes on an instance with its module, no call panics and, at the
    end, every pointer that the three methods themselves obtained from
    the allocator (for argument strings and pointer arrays) has been
    handed to the free export, whichever calls failed on the way.  The
    trace is that of the methods' own steps: what the guest does inside
    the run export, the buffers of plugin callbacks included, is not
    part of it. *)
Theorem session_leaves_no_allocation p m ctx (reqs : list request) s
  (o : outcome (@Protoc Ctx S)) s1 (tr : list event) :
  mod_ p = Some m ->
  session p ctx reqs s = (o, s1, tr) ->
  (exists p1, o = Done p1 /\ mod_ p1 = Some m) /\
  Permutation (allocs tr) (frees tr) /\
  outstanding tr = 0.
Proof.
  intros Hmod H.
  destruct (session_post m ctx reqs _ _ _ _ _ Hmod H)
    as (p1 & -> & Hm & HP & _).
  split; [exists p1; split; [reflexivity | exact Hm] |].
  split; [exact HP | apply outstanding_balanced; exact HP].
Qed.

(** X11: whatever sequence of [Init], [Run] and [Close] calls a client
    makes, the guest sees a well-formed lifecycle: the init export is
    entered only while the reactor is not initialized, the run and
    destroy exports only while it is (after an init that answered
    status 0 and before the next destroy), and the instance's flag
    agrees with the reactor's state at the end. *)
Theorem session_respects_lifecycle p m ctx (reqs : list request) s
  (o : outcome (@Protoc Ctx S)) s1 (tr : list event) :
  mod_ p = Some m ->
  session p ctx reqs s = (o, s1, tr) ->
  lifecycle_ok (initialized p) tr = true /\
  exists p1, o = Done p1 /\ lifecycle_state (initialized p) tr = initialized p1.
Proof.
  intros Hmod H.
  destruct (session_post m ctx reqs _ _ _ _ _ Hmod H)
    as (p1 & -> & _ & _ & Hok & Hst).
  split; [exact Hok |]. exists p1. split; [reflexivity | exact Hst].
Qed.

(** ** The callback, read backwards *)

Lemma writes_of_ledger (ws : list (Z * list byte)) :
  forall tw : list event,
    writes_of ws tw ->
    quiet tw /\ allocs tw = [] /\ frees tw = [] /\
    filter is_communicate tw = [].
Proof.
  induction ws as [| [offset data] rest IH]; intros [| e tw] H;
    try contradiction H.
  - repeat split. constructor.
  - destruct e; try contradiction H. destruct H as (_ & _ & H).
    destruct (IH _ H) as (Hq & Ha & Hf & Hc).
    repeat split; auto. constructor; [reflexivity | exact Hq].
Qed.

Lemma allocBytes_done_ledger p ctx (data : list byte) s (ptr : Z)
  (err : option error) s1 (ta : list event) :
  allocBytes p ctx data s = (Done (ptr, err), s1, ta) ->
  quiet ta /\ filter is_communicate ta = [] /\
  match err with
  | None => ptr <> 0 /\ allocs ta = [ptr] /\ frees ta = []
  | Some _ => allocs ta = frees ta
  end.
Proof.
  unfold allocBytes. unmonad. intros H.
  answer (malloc p ctx (len data) s).
  destruct r as [res | e]; simpl in H.
  - destruct (uint32 res =? 0) eqn:Hz.
    + inversion H; subst. simpl. rewrite Hz. repeat split. repeat constructor.
    + destruct (mod_ p) as [m |]; [| discriminate H].
      answer (Write (ModMemory m) (uint32 res) data s0).
      destruct r; simpl in H.
      * inversion H; subst. simpl. rewrite Hz. apply Z.eqb_neq in Hz.
        repeat split; [repeat constructor | exact Hz].
      * answer (free p ctx (uint32 res) s2). inversion H; subst. simpl.
        rewrite Hz. repeat split. repeat constructor.
  - inversion H; subst. repeat split. repeat constructor.
Qed.

Lemma callback_out p ctx m (stack : list Z) s (out : list Z) s1
  (tr : list event) :
  hostPluginCommunicate p ctx m stack s = (Done out, s1, tr) ->
  9 <= len stack /\ exists v, out = set0 stack v.
Proof.
  intros H. unfold hostPluginCommunicate in H.
  destruct (len stack <? 9) eqn:Hlen; [discriminate H |].
  apply Z.ltb_ge in Hlen. split; [exact Hlen |].
  unfold writePtr, writeUint32 in H. unmonad.
  destruct (Read (ModMemory m) (uint32 (nth 0 stack 0))
              (uint32 (nth 1 stack 0)) s) as [programBytes |];
    [| inversion H; eexists; reflexivity].
  destruct (Read (ModMemory m) (uint32 (nth 3 stack 0))
              (uint32 (nth 4 stack 0)) s) as [inputData |];
    [| inversion H; eexists; reflexivity].
  destruct (Communicate (pluginHandler p) ctx
              (string_of_list_byte programBytes)
              (negb (int32 (nth 2 stack 0) =? 0)) inputData s)
    as [[output [errMsg |]] s2]; simpl in H.
  - destruct (allocBytes p ctx (list_byte_of_string errMsg) s2)
      as [[[[ptr [aerr |]] | msg] s3] ta]; simpl in H;
      try discriminate H;
      repeat (match type of H with
              | context [Write ?a ?b ?c ?d] =>
                  destruct (Write a b c d); simpl in H
              end);
      inversion H; eexists; reflexivity.
  - destruct (allocBytes p ctx output s2)
      as [[[[ptr [aerr |]] | msg] s3] ta]; simpl in H;
      try discriminate H;
      repeat (match type of H with
              | context [Write ?a ?b ?c ?d] =>
                  destruct (Write a b c d); simpl in H
              end);
      inversion H; eexists; reflexivity.
Qed.

Lemma callback_cases p ctx m (stack : list Z) s (out : list Z) s1
  (tr : list event) :
  hostPluginCommunicate p ctx m stack s = (Done out, s1, tr) ->
  (tr = [] /\ s1 = s /\ status out = -1) \/
  (exists program searchPath input r s2 a s3 ta tw,
      Communicate (pluginHandler p) ctx program searchPath input s = (r, s2) /\
      allocBytes p ctx (payload r) s2 = (Done a, s3, ta) /\
      tr = EvCommunicate program searchPath input r :: ta ++ tw /\
      status out = fst (slot_protocol stack r a) /\
      writes_of (snd (slot_protocol stack r a)) tw).
Proof.
  intros H. destruct (callback_out _ _ _ _ _ _ _ _ H) as [Hlen _].
  destruct (Read (ModMemory m) (word stack 0) (word stack 1) s)
    as [programBytes |] eqn:Hp.
  2:{ left.
      destruct (callback_read_failure p ctx m stack s Hlen (or_introl Hp))
        as (out' & Heq & Hst).
      rewrite Heq in H. inversion H; subst. auto. }
  destruct (Read (ModMemory m) (word stack 3) (word stack 4) s)
    as [inputData |] eqn:Hi.
  2:{ left.
      destruct (callback_read_failure p ctx m stack s Hlen (or_intror Hi))
        as (out' & Heq & Hst).
      rewrite Heq in H. inversion H; subst. auto. }
  right.
  destruct (Communicate (pluginHandler p) ctx
              (string_of_list_byte programBytes)
              (negb (int32 (nth 2 stack 0) =? 0)) inputData s)
    as [r s2] eqn:Hc.
  destruct (allocBytes p ctx (payload r) s2) as [[[a | msg] s3] ta] eqn:Ha.
  - destruct (callback_after_reads p ctx m stack s _ _ _ _ _ _ _
                Hlen Hp Hi Hc Ha) as (out' & s4 & tw & Heq & Hst & Hw).
    rewrite Heq in H. inversion H; subst.
    exists (string_of_list_byte programBytes),
      (negb (int32 (nth 2 stack 0) =? 0)), inputData, r, s2, a, s3, ta, tw.
    repeat split; assumption.
  - exfalso. unfold hostPluginCommunicate, word in *.
    rewrite (short_stack _ Hlen) in H. unmonad.
    rewrite Hp, Hi, Hc in H.
    destruct r as [output [errMsg |]]; unfold payload in Ha;
      rewrite Ha in H; discriminate H.
Qed.

Lemma nth_set0 (stack : list Z) (v : Z) (i : nat) :
  (1 <= i)%nat -> nth i (set0 stack v) 0 = nth i stack 0.
Proof.
  intros Hi. destruct stack as [| w rest]; [reflexivity |].
  destruct i as [| j]; [lia | reflexivity].
Qed.

Lemma length_set0 (stack : list Z) (v : Z) :
  List.length (set0 stack v) = List.length stack.
Proof. destruct stack; reflexivity. Qed.

(** X12: the callback needs its nine words: on a shorter stack it
    panics before touching anything.  When it returns, only the first
    word of the stack has changed, and the status it holds is -1, 0
    or 1. *)
Theorem callback_frame p ctx m (stack : list Z) s :
  (len stack < 9 ->
   hostPluginCommunicate p ctx m stack s
     = (Panic "index out of range", s, [])) /\
  (forall out s1 tr,
      hostPluginCommunicate p ctx m stack s = (Done out, s1, tr) ->
      9 <= len stack /\
      List.length out = List.length stack /\
      (forall i, (1 <= i)%nat -> nth i out 0 = nth i stack 0) /\
      (status out = -1 \/ status out = 0 \/ status out = 1)).
Proof.
  split.
  - intros Hlen. unfold hostPluginCommunicate.
    apply Z.ltb_lt in Hlen. rewrite Hlen. reflexivity.
  - intros out s1 tr H.
    destruct (callback_out _ _ _ _ _ _ _ _ H) as [Hlen [v ->]].
    split; [exact Hlen |]. split; [apply length_set0 |].
    split; [intros i Hi; apply nth_set0; exact Hi |].
    destruct (callback_cases _ _ _ _ _ _ _ _ H)
      as [(_ & _ & Hst) | (program & flag & input & r & s2 & a & s3 & ta & tw
                           & _ & _ & _ & Hst & _)].
    + left. exact Hst.
    + rewrite Hst. destruct r as [output [errMsg |]], a as [ptr [aerr |]];
        cbn [slot_protocol fst]; auto.
Qed.

(** X13: a callback that returns has entered no guest entry point but
    the allocator and has invoked the handler at most once.  With
    status 0 its trace holds exactly one allocation and no free: the
    output buffer is left to the guest.  With status -1 nothing is
    left outstanding.  In every case at most one allocation is left. *)
Theorem callback_ownership p ctx m (stack : list Z) s (out : list Z) s1
  (tr : list event) :
  hostPluginCommunicate p ctx m stack s = (Done out, s1, tr) ->
  quiet tr /\
  (List.length (filter is_communicate tr) <= 1)%nat /\
  (status out = 0 ->
   exists ptr, ptr <> 0 /\ allocs tr = [ptr] /\ frees tr = []) /\
  (status out = -1 -> outstanding tr = 0) /\
  (outstanding tr = 0 \/ outstanding tr = 1).
Proof.
  intros H.
  destruct (callback_cases _ _ _ _ _ _ _ _ H)
    as [(-> & _ & Hst) | (program & flag & input & r & s2 & [ptr aerr] & s3
                          & ta & tw & _ & Ha & -> & Hst & Hw)].
  - split; [constructor |]. split; [simpl; lia |].
    split; [intros H0; rewrite H0 in Hst; discriminate Hst |].
    split; [reflexivity | left; reflexivity].
  - destruct (allocBytes_done_ledger _ _ _ _ _ _ _ _ Ha) as (Hqa & Hca & Hla).
    destruct (writes_of_ledger _ _ Hw) as (Hqw & Haw & Hfw & Hcw).
    assert (Hall : allocs (EvCommunicate program flag input r :: ta ++ tw)
                   = allocs ta)
      by (change (allocs (EvCommunicate program flag input r :: ta ++ tw))
            with (allocs (ta ++ tw));
          rewrite allocs_app, Haw; apply app_nil_r).
    assert (Hfr : frees (EvCommunicate program flag input r :: ta ++ tw)
                  = frees ta)
      by (change (frees (EvCommunicate program flag input r :: ta ++ tw))
            with (frees (ta ++ tw));
          rewrite frees_app, Hfw; apply app_nil_r).
    split; [constructor; [reflexivity | apply quiet_app; assumption] |].
    split.
    { cbn [filter is_communicate]. rewrite filter_app, Hca, Hcw. simpl. lia. }
    unfold outstanding. rewrite Hall, Hfr.
    destruct r as [output [errMsg |]], aerr as [e |];
      cbn [slot_protocol fst] in Hst.
    + rewrite Hla. repeat split; try (intros H0; rewrite H0 in Hst; discriminate Hst).
      left. lia.
    + destruct Hla as (Hnz & -> & ->).
      repeat split; try (intros H0; rewrite H0 in Hst; discriminate Hst).
      right. reflexivity.
    + rewrite Hla. repeat split; try (intros H0; rewrite H0 in Hst; discriminate Hst).
      * intros _. lia.
      * left. lia.
    + destruct Hla as (Hnz & -> & ->).
      repeat split; try (intros H0; rewrite H0 in Hst; discriminate Hst).
      * intros _. exists ptr. repeat split. exact Hnz.
      * right. reflexivity.
Qed.

(** X14: the callback over the default handler.  The handler hands
    os/exec the command that [buildCmd] makes of the program name read
    from guest memory and of the guest's input bytes.  When the child
    fails, the text for the guest is [program: cause], followed by the
    child's standard error when there is any; the status is 1, and the
    error slots are written with a buffer holding the text only when
    [allocBytes] could make that buffer, the output slots being written
    with zero either way.  When the child succeeds, the payload is its
    standard output; the status is 0 with the output slots written
    when [allocBytes] could make the buffer, and -1 with no slot write
    when it could not.  Slot writes are attempted; whether the memory
    accepted them is not looked at. *)
Theorem callback_with_default_handler p ctx m (stack : list Z) s
  (cmdRun : @Cmd Ctx -> S -> (option error * list byte * list byte) * S)
  (programBytes inputData : list byte) (status_err : option error)
  (stdout stderr : list byte) s1 (a : Z * option error) s2
  (ta : list event) :
  pluginHandler p = DefaultPluginHandler cmdRun ->
  9 <= len stack ->
  Read (ModMemory m) (word stack 0) (word stack 1) s = Some programBytes ->
  Read (ModMemory m) (word stack 3) (word stack 4) s = Some inputData ->
  cmdRun (buildCmd ctx (string_of_list_byte programBytes)
            (negb (int32 (nth 2 stack 0) =? 0)) inputData) s
    = (status_err, stdout, stderr, s1) ->
  allocBytes p ctx
    (payload
       match status_err with
       | Some cause =>
           ([], Some (if 0 <? len stderr
                      then (string_of_list_byte programBytes ++ ": " ++ cause
                            ++ ": " ++ string_of_list_byte stderr)%string
                      else (string_of_list_byte programBytes ++ ": "
                            ++ cause)%string))
       | None => (stdout, None)
       end) s1
    = (Done a, s2, ta) ->
  Stdin (buildCmd ctx (string_of_list_byte programBytes)
           (negb (int32 (nth 2 stack 0) =? 0)) inputData) = inputData /\
  Args (buildCmd ctx (string_of_list_byte programBytes)
          (negb (int32 (nth 2 stack 0) =? 0)) inputData)
    = [string_of_list_byte programBytes] /\
  exists out s3 tw r,
    hostPluginCommunicate p ctx m stack s
      = (Done out, s3,
         EvCommunicate (string_of_list_byte programBytes)
           (negb (int32 (nth 2 stack 0) =? 0)) inputData r :: ta ++ tw) /\
    match status_err with
    | Some cause =>
        exists msg,
          msg = (if 0 <? len stderr
                 then (string_of_list_byte programBytes ++ ": " ++ cause
                       ++ ": " ++ string_of_list_byte stderr)%string
                 else (string_of_list_byte programBytes ++ ": "
                       ++ cause)%string) /\
          r = ([], Some msg) /\ status out = 1 /\
          match a with
          | (ptr, None) =>
              In (EvWrite ptr (list_byte_of_string msg) true) ta /\
              writes_of [(word stack 7, PutUint32 ptr);
                         (word stack 8, PutUint32 (uint32 (strlen msg)));
                         (word stack 5, PutUint32 0);
                         (word stack 6, PutUint32 0)] tw
          | (_, Some _) =>
              writes_of [(word stack 5, PutUint32 0);
                         (word stack 6, PutUint32 0)] tw
          end
    | None =>
        r = (stdout, None) /\
        match a with
        | (ptr, None) =>
            status out = 0 /\
            In (EvWrite ptr stdout true) ta /\
            writes_of [(word stack 5, PutUint32 ptr);
                       (word stack 6, PutUint32 (uint32 (len stdout)));
                       (word stack 7, PutUint32 0);
                       (word stack 8, PutUint32 0)] tw
        | (_, Some _) => status out = -1 /\ tw = []
        end
    end.
Proof.
  intros Hh Hlen Hp Hi Hrun Ha.
  split; [reflexivity |].
  split; [unfold buildCmd; destruct (negb _); reflexivity |].
  set (r := match status_err with
            | Some cause =>
                ([], Some (if 0 <? len stderr
                           then (string_of_list_byte programBytes ++ ": "
                                 ++ cause ++ ": "
                                 ++ string_of_list_byte stderr)%string
                           else (string_of_list_byte programBytes ++ ": "
                                 ++ cause)%string))
            | None => (stdout, None)
            end) in *.
  assert (Hc : Communicate (pluginHandler p) ctx
                 (string_of_list_byte programBytes)
                 (negb (int32 (nth 2 stack 0) =? 0)) inputData s = (r, s1)).
  { rewrite Hh. cbn [Communicate DefaultPluginHandler].
    unfold DefaultPluginHandler_Communicate. rewrite Hrun. subst r.
    destruct status_err as [cause |]; [| reflexivity].
    destruct (0 <? len stderr); reflexivity. }
  destruct (callback_after_reads p ctx m stack s _ _ _ _ _ _ _
              Hlen Hp Hi Hc Ha) as (out & s3 & tw & Heq & Hst & Hw).
  exists out, s3, tw, r. split; [exact Heq |].
  subst r. destruct status_err as [cause |], a as [ptr [aerr |]];
    cbn [slot_protocol fst snd payload] in Hst, Hw, Ha.
  - eexists. split; [reflexivity |]. repeat split; assumption.
  - eexists. split; [reflexivity |]. split; [reflexivity |].
    split; [exact Hst |].
    split; [apply (allocBytes_success_trace _ _ _ _ _ _ _ Ha) | exact Hw].
  - split; [reflexivity |]. split; [exact Hst |].
    destruct tw; [reflexivity | contradiction].
  - split; [reflexivity |]. split; [exact Hst |].
    split; [apply (allocBytes_success_trace _ _ _ _ _ _ _ Ha) | exact Hw].
Qed.

End BridgeFacts.

(** * The claims that fail as stated *)

(** C2 fails as stated: with an exhausted allocator the handler
    succeeds and the status word is -1, not 0. *)
Lemma callback_status_counterexample :
  ~ callback_status_as_specified unit Toy.state.
Proof.
  intros H.
  specialize (H Toy.starved tt Toy.module Toy.callStack Toy.withName
                [4294967295; 4; 1; 4; 0; 16; 20; 24; 28] Toy.withName
                [EvCommunicate "plug" true [] ([], None); EvMalloc 0 (inl 0)]
                "plug"%string true [] []).
  assert (Hs : status [4294967295; 4; 1; 4; 0; 16; 20; 24; 28] = 0).
  { apply H; [vm_compute; discriminate | reflexivity | left; reflexivity]. }
  vm_compute in Hs. discriminate Hs.
Qed.

(** C8 fails as stated: [Close] on an instance that was never
    initialized closes the module. *)
Lemma Close_noop_counterexample : ~ Close_noop_as_specified unit Toy.state.
Proof.
  intros H. specialize (H Toy.fresh tt Toy.small eq_refl).
  vm_compute in H. discriminate H.
Qed.

(** C10 fails as stated: with the output slots at 100 and 104 in a
    memory of 64 bytes, a helper error and an exhausted allocator, the
    callback leaves status 1 but both zero writes are rejected, and the
    output slots are not cleared. *)
Lemma callback_clears_output_counterexample :
  ~ callback_clears_output_as_specified unit Toy.state.
Proof.
  intros H.
  specialize (H Toy.starved_helpless tt Toy.module Toy.farStack Toy.withName
                [1; 4; 1; 4; 0; 100; 104; 24; 28] Toy.withName
                [EvCommunicate "plug" true [] ([], Some "plug: not found"%string);
                 EvMalloc 15 (inl 0);
                 EvWrite 100 (PutUint32 0) false;
                 EvWrite 104 (PutUint32 0) false]
                "plug"%string true [] [] "plug: not found"%string).
  assert (Hread : Read (ModMemory Toy.module) (word Toy.farStack 5) 4
                    Toy.withName = Some (PutUint32 0)).
  { apply H; [vm_compute; discriminate | reflexivity | left; reflexivity
             | reflexivity]. }
  vm_compute in Hread. discriminate Hread.
Qed.

(** * The argv writes *)

(** C4: the memory has twelve bytes and the allocator answers 8 and
    then 10.  The write of the argument string at 8 is accepted; the
    write of the pointer array at 10 is rejected.  [Run] goes on: it
    invokes the run export with the array at 10 and returns the
    export's exit code without an error. *)
Theorem Run_ignores_rejected_argv_write :
  fst (fst (Run Toy.ready tt ["a"%string] Toy.tight)) = Done (3, None) /\
  snd (Run Toy.ready tt ["a"%string] Toy.tight)
    = [EvMalloc 2 (inl 8); EvWrite 8 ["a"%byte; x00] true;
       EvMalloc 4 (inl 10); EvWrite 10 (PutUint32 8) false;
       EvRun 1 10 (inl 3); EvFree 10 None; EvFree 8 None].
Proof. split; reflexivity. Qed.

(** * The theorems at concrete inputs *)

Open Scope string_scope.

Lemma Run_frees_every_allocation_witness :
  mod_ Toy.trapping = Some Toy.module /\
  initialized Toy.trapping = true /\
  ["protoc"; "--version"] <> [] /\
  exists res s1 tr,
    Run Toy.trapping tt ["protoc"; "--version"] Toy.withName
      = (Done res, s1, tr) /\
    Permutation (allocs tr) (frees tr) /\
    outstanding ([EvInit (inl 0)] ++ tr) = outstanding [EvInit (inl 0)].
Proof.
  split; [reflexivity |]. split; [reflexivity |]. split; [discriminate |].
  apply (Run_frees_every_allocation Toy.trapping Toy.module tt
           ["protoc"; "--version"] Toy.withName [EvInit (inl 0)]);
    [reflexivity | reflexivity | discriminate].
Defined.

Lemma Run_requires_Init_witness :
  initialized Toy.fresh = false /\
  Run Toy.fresh tt ["protoc"; "--version"] Toy.small
    = (Done (1, Some "protoc not initialized, call Init() first"),
       Toy.small, []).
Proof.
  split; [reflexivity |].
  apply (Run_requires_Init Toy.fresh tt ["protoc"; "--version"] Toy.small).
  reflexivity.
Defined.

Lemma Run_exit_status_witness :
  mod_ Toy.ready = Some Toy.module /\
  initialized Toy.ready = true /\
  In (EvRun 1 10 (inl 3)) (snd (Run Toy.ready tt ["a"] Toy.small)) /\
  fst (fst (Run Toy.ready tt ["a"] Toy.small)) = Done (int32 3, None).
Proof.
  split; [reflexivity |]. split; [reflexivity |].
  split; [vm_compute; tauto |].
  apply (Run_exit_status Toy.ready Toy.module tt ["a"] Toy.small
           (fst (fst (Run Toy.ready tt ["a"] Toy.small)))
           (snd (fst (Run Toy.ready tt ["a"] Toy.small)))
           (snd (Run Toy.ready tt ["a"] Toy.small)) 1 10 (inl 3));
    [reflexivity | reflexivity | reflexivity | vm_compute; tauto].
Defined.

Lemma Init_idempotent_witness :
  (Init Toy.fresh tt Toy.small
     = (Done (set_initialized true Toy.fresh, None), Toy.small,
        [EvInit (inl 0)]) /\
   initialized (set_initialized true Toy.fresh) = true /\
   Init (set_initialized true Toy.fresh) tt Toy.small
     = (Done (set_initialized true Toy.fresh, None), Toy.small, [])) /\
  Init Toy.ready tt Toy.small = (Done (Toy.ready, None), Toy.small, []) /\
  (Init Toy.refused tt Toy.small
     = (Done (Toy.refused, Some "protoc_init returned error"), Toy.small,
        [EvInit (inl 7)]) /\
   initialized Toy.refused = false).
Proof.
  split; [| split].
  - apply (proj1 (Init_idempotent Toy.fresh tt Toy.small) 0 Toy.small);
      reflexivity.
  - apply (proj1 (proj2 (Init_idempotent Toy.ready tt Toy.small))).
    reflexivity.
  - apply (proj2 (proj2 (proj2 (Init_idempotent Toy.refused tt Toy.small)))
             7 Toy.small);
      [reflexivity | reflexivity | vm_compute; discriminate].
Defined.

Lemma allocBytes_failure_paths_witness :
  mod_ Toy.starved = Some Toy.module /\
  allocBytes Toy.starved tt ["a"%byte] Toy.small
    = (Done (0, Some "malloc returned null"), Toy.small,
       [EvMalloc 1 (inl 0)]) /\
  allocBytes Toy.ready tt (repeat "a"%byte 5) Toy.tight
    = (Done (0, Some "failed to write to memory"),
       {| Toy.cells := repeat x00 12; Toy.brk := 13 |},
       [EvMalloc 5 (inl 8); EvWrite (uint32 8) (repeat "a"%byte 5) false;
        EvFree (uint32 8) None]) /\
  outstanding
    [EvMalloc 5 (inl 8); EvWrite (uint32 8) (repeat "a"%byte 5) false;
     EvFree (uint32 8) None] = 0.
Proof.
  split; [reflexivity |]. split; [| split].
  - apply (proj1 (allocBytes_failure_paths Toy.starved Toy.module tt
                    ["a"%byte] Toy.small eq_refl) 0 Toy.small);
      reflexivity.
  - apply (proj1 (proj2 (allocBytes_failure_paths Toy.ready Toy.module tt
                           (repeat "a"%byte 5) Toy.tight eq_refl))
             8 {| Toy.cells := repeat x00 12; Toy.brk := 13 |}
             {| Toy.cells := repeat x00 12; Toy.brk := 13 |} None
             {| Toy.cells := repeat x00 12; Toy.brk := 13 |});
      [reflexivity | vm_compute; discriminate | reflexivity | reflexivity].
  - apply (proj2 (proj2 (allocBytes_failure_paths Toy.ready Toy.module tt
                           (repeat "a"%byte 5) Toy.tight eq_refl))
             0 "failed to write to memory"
             {| Toy.cells := repeat x00 12; Toy.brk := 13 |}).
    reflexivity.
Defined.

Lemma Close_destroys_once_witness :
  Close Toy.fresh tt Toy.small
    = (Done (Toy.fresh, None), Toy.small, [EvModClose None]) /\
  Close (set_initialized false Toy.faulty) tt Toy.small
    = (Done (set_initialized false Toy.faulty, None), Toy.small,
       [EvModClose None]) /\
  Close Toy.faulty tt Toy.small
    = (Done (set_initialized false Toy.faulty, None), Toy.small,
       [EvDestroy (Some "destroy trapped"); EvModClose None]).
Proof.
  split; [| split].
  - apply (proj1 (Close_destroys_once Toy.fresh tt Toy.small)). reflexivity.
  - apply (proj1 (proj2 (Close_destroys_once Toy.faulty tt Toy.small))
             (set_initialized false Toy.faulty) None Toy.small
             [EvDestroy (Some "destroy trapped"); EvModClose None]).
    reflexivity.
  - destruct (proj2 (proj2 (Close_destroys_once Toy.faulty tt Toy.small))
                (fun _ s => (Some "destroy trapped", s))
                (Some "destroy trapped") Toy.small
                eq_refl eq_refl eq_refl) as (e & s2 & t2 & Hm & Hc).
    rewrite Hc. inversion Hm. reflexivity.
Defined.

Lemma callback_status_word_witness :
  9 <= len Toy.wildStack /\
  Read Toy.memory (word Toy.wildStack 0) (word Toy.wildStack 1) Toy.withName
    = None /\
  (exists out,
      hostPluginCommunicate Toy.helpless tt Toy.module Toy.wildStack
        Toy.withName = (Done out, Toy.withName, []) /\
      status out = -1) /\
  9 <= len Toy.callStack /\
  (exists out s3 tw,
      hostPluginCommunicate Toy.helpless tt Toy.module Toy.callStack
        Toy.withName
        = (Done out, s3,
           EvCommunicate "plug" true [] ([], Some "plug: not found")
             :: [EvMalloc 15 (inl 32);
                 EvWrite 32 (list_byte_of_string "plug: not found") true]
             ++ tw) /\
      status out = 1 /\
      In (EvWrite 32 (list_byte_of_string "plug: not found") true)
         [EvMalloc 15 (inl 32);
          EvWrite 32 (list_byte_of_string "plug: not found") true] /\
      writes_of [(24, PutUint32 32); (28, PutUint32 15);
                 (16, PutUint32 0); (20, PutUint32 0)] tw).
Proof.
  split; [vm_compute; discriminate |]. split; [reflexivity |].
  split; [| split; [vm_compute; discriminate |]].
  - apply (proj1 (callback_status_word Toy.helpless tt Toy.module
                    Toy.wildStack Toy.withName
                    ltac:(vm_compute; discriminate))).
    left. reflexivity.
  - apply (proj2 (callback_status_word Toy.helpless tt Toy.module
                    Toy.callStack Toy.withName
                    ltac:(vm_compute; discriminate))
             (list_byte_of_string "plug") []
             ([], Some "plug: not found") Toy.withName (32, None)
             {| Toy.cells :=
                  firstn 32 (Toy.cells Toy.withName)
                  ++ list_byte_of_string "plug: not found"
                  ++ skipn 47 (Toy.cells Toy.withName);
                Toy.brk := 47 |}
             [EvMalloc 15 (inl 32);
              EvWrite 32 (list_byte_of_string "plug: not found") true]);
      reflexivity.
Defined.

Lemma callback_allocation_failure_witness :
  9 <= len Toy.callStack /\
  allocBytes Toy.starved_helpless tt (list_byte_of_string "plug: not found")
    Toy.withName
    = (Done (0, Some "malloc returned null"), Toy.withName,
       [EvMalloc 15 (inl 0)]) /\
  (exists out ok1 s3 ok2 s4,
      Write Toy.memory (word Toy.callStack 5) (PutUint32 0) Toy.withName
        = (ok1, s3) /\
      Write Toy.memory (word Toy.callStack 6) (PutUint32 0) s3 = (ok2, s4) /\
      hostPluginCommunicate Toy.starved_helpless tt Toy.module Toy.callStack
        Toy.withName
        = (Done out, s4,
           (EvCommunicate "plug" true [] ([], Some "plug: not found")
              :: [EvMalloc 15 (inl 0)]
              ++ [EvWrite (word Toy.callStack 5) (PutUint32 0) ok1;
                  EvWrite (word Toy.callStack 6) (PutUint32 0) ok2])%list) /\
      status out = 1) /\
  (exists out,
      hostPluginCommunicate Toy.starved tt Toy.module Toy.callStack
        Toy.withName
        = (Done out, Toy.withName,
           [EvCommunicate "plug" true [] ([], None); EvMalloc 0 (inl 0)]) /\
      status out = -1).
Proof.
  split; [vm_compute; discriminate |]. split; [reflexivity |]. split.
  - apply (proj2 (callback_allocation_failure Toy.starved_helpless tt
                    Toy.module Toy.callStack Toy.withName
                    (list_byte_of_string "plug") []
                    ([], Some "plug: not found") Toy.withName
                    0 "malloc returned null" Toy.withName
                    [EvMalloc 15 (inl 0)]
                    ltac:(vm_compute; discriminate)
                    eq_refl eq_refl eq_refl eq_refl)).
  - apply (proj2 (callback_allocation_failure Toy.starved tt
                    Toy.module Toy.callStack Toy.withName
                    (list_byte_of_string "plug") []
                    ([], None) Toy.withName
                    0 "malloc returned null" Toy.withName
                    [EvMalloc 0 (inl 0)]
                    ltac:(vm_compute; discriminate)
                    eq_refl eq_refl eq_refl eq_refl)).
Defined.

(** * Creating an instance *)

Close Scope string_scope.

Section ConstructionFacts.

Context {Ctx S Reader Writer FS FSConfig Compiled : Type}.

Variable NewFSConfig : FSConfig.
Variable WithFSMount : FS -> string -> FSConfig -> FSConfig.
Variable ProtocWASM : list byte.
Variable cmdRun : @Cmd Ctx -> S -> (option error * list byte * list byte) * S.

Implicit Types (ctx : Ctx) (s : S)
  (r : @Runtime Ctx S Reader Writer FSConfig Compiled)
  (cfg : option (@Config Ctx S Reader Writer FS FSConfig))
  (inst : @Instance Ctx S).

(** The constructor and its parts at the section's engine. *)
#[local] Abbreviation construct :=
  (@NewProtocWithModule Ctx S Reader Writer FS FSConfig Compiled
     NewFSConfig WithFSMount cmdRun).
#[local] Abbreviation configOf cfg :=
  (@moduleConfig Ctx S Reader Writer FS FSConfig NewFSConfig WithFSMount
     match cfg with
     | Some c => c
     | None => emptyConfig
     end).
#[local] Abbreviation handlerOf cfg :=
  (match cfgPluginHandler
           match cfg with
           | Some c => c
           | None => emptyConfig
           end
   with
   | Some h => h
   | None => DefaultPluginHandler cmdRun
   end).
#[local] Abbreviation registered err :=
  (@SeHostModule Ctx S Reader Writer FSConfig Compiled
     ImportModuleProtoc ImportPluginCommunicate
     (repeat ValueTypeI32 9) [ValueTypeI32] err).

Ltac unsetup :=
  unfold NewProtocWithModule, closeAndFail in *;
  unfold sbind, step, sret, fail in *.

Ltac close_case :=
  unfold first_missing;
  repeat match goal with
         | Hx : ?l = _ |- context [?l] => rewrite Hx
         end;
  repeat split; auto.

(** Every way the constructor can end. *)
Lemma NewProtocWithModule_cases ctx r (compiled : Compiled) cfg s
  (res : @Protoc Ctx S + error) s1
  (tr : list (@setup_event Ctx S Reader Writer FSConfig Compiled)) :
  construct ctx r compiled cfg s = (res, s1, tr) ->
  (exists c,
      res = inr ("failed to register host functions: " ++ c)%string /\
      tr = [registered (Some c)]) \/
  (exists c,
      res = inr ("failed to instantiate WASI: " ++ c)%string /\
      tr = [registered None; SeWasi (Some c)]) \/
  (exists c,
      res = inr ("failed to instantiate module: " ++ c)%string /\
      tr = [registered None; SeWasi None;
            SeInstantiate (configOf cfg) (inr c)]) \/
  (exists inst c cerr,
      res = inr ("_initialize failed: " ++ c)%string /\
      tr = [registered None; SeWasi None;
            SeInstantiate (configOf cfg) (inl inst);
            SeInitialize (Some c); SeClose cerr]) \/
  (exists inst name cerr ti,
      first_missing inst = Some name /\
      res = inr ("missing export: " ++ name)%string /\
      (ti = [] \/ ti = [SeInitialize None]) /\
      tr = [registered None; SeWasi None;
            SeInstantiate (configOf cfg) (inl inst)]
           ++ ti ++ [SeClose cerr]) \/
  (exists inst p ti,
      first_missing inst = None /\
      res = inl p /\
      (ti = [] \/ ti = [SeInitialize None]) /\
      tr = [registered None; SeWasi None;
            SeInstantiate (configOf cfg) (inl inst)] ++ ti /\
      mod_ p = Some (instModule inst) /\
      exp_malloc inst = Some (malloc p) /\
      exp_free inst = Some (free p) /\
      exp_protoc_init inst = Some (protocInit p) /\
      exp_protoc_run inst = Some (protocRun p) /\
      exp_protoc_destroy inst = protocDestroy p /\
      pluginHandler p = handlerOf cfg /\
      initialized p = false).
Proof.
  intros H. unsetup.
  destruct (HostModuleInstantiate r ctx ImportModuleProtoc
              ImportPluginCommunicate (repeat ValueTypeI32 9) [ValueTypeI32] s)
    as [[c |] s2].
  { inversion H; subst. left. exists c. split; reflexivity. }
  destruct (WasiInstantiate r ctx s2) as [[c |] s3].
  { inversion H; subst. right; left. exists c. split; reflexivity. }
  destruct (InstantiateModule r ctx compiled (configOf cfg) s3)
    as [[inst | c] s4].
  2:{ inversion H; subst. do 2 right; left. exists c. split; reflexivity. }
  do 3 right.
  destruct (exp_initialize inst) as [initFn |];
    [destruct (initFn ctx s4) as [[c |] s5] |];
    destruct (exp_malloc inst) eqn:?, (exp_free inst) eqn:?,
      (exp_protoc_init inst) eqn:?, (exp_protoc_run inst) eqn:?,
      (exp_protoc_destroy inst) eqn:?;
    repeat match type of H with
           | context [ModClose ?m ?c ?s0] =>
               destruct (ModClose m c s0) as [cerr ?]
           end;
    inversion H; subst; clear H;
    first
      [ solve [left; exists inst; eexists _, _; split; reflexivity]
      | solve [right; left; exists inst; eexists _, _, [SeInitialize None];
               close_case]
      | solve [right; left; exists inst; eexists _, _, []; close_case]
      | solve [right; right; exists inst; eexists _, [SeInitialize None];
               close_case]
      | solve [right; right; exists inst; eexists _, []; close_case] ].
Qed.

(** X15: an instance that [NewProtocWithModule] returns is not
    initialized, carries the handler of the configuration (the default
    handler when none is given or the configuration is nil), and is
    built on a module that was instantiated and has all five required
    exports: the instance's module and entry points are that module's.
    The module has not been closed. *)
Theorem NewProtocWithModule_ready ctx r (compiled : Compiled) cfg s
  (p : @Protoc Ctx S) s1
  (tr : list (@setup_event Ctx S Reader Writer FSConfig Compiled)) :
  construct ctx r compiled cfg s = (inl p, s1, tr) ->
  initialized p = false /\
  pluginHandler p = handlerOf cfg /\
  filter is_close tr = [] /\
  exists inst,
    In (SeInstantiate (configOf cfg) (inl inst)) tr /\
    first_missing inst = None /\
    mod_ p = Some (instModule inst) /\
    exp_malloc inst = Some (malloc p) /\
    exp_free inst = Some (free p) /\
    exp_protoc_init inst = Some (protocInit p) /\
    exp_protoc_run inst = Some (protocRun p) /\
    exp_protoc_destroy inst = protocDestroy p.
Proof.
  intros H.
  destruct (NewProtocWithModule_cases _ _ _ _ _ _ _ _ H)
    as [(c & Hr & _) | [(c & Hr & _) | [(c & Hr & _) |
       [(inst & c & cerr & Hr & _) | [(inst & name & cerr & ti & _ & Hr & _) |
        (inst & q & ti & Hm & Hr & Hti & -> & Hrest)]]]]];
    try discriminate Hr.
  inversion Hr; subst q.
  destruct Hrest as (H1 & H2 & H3 & H4 & H5 & H6 & H7 & H8).
  split; [exact H8 |]. split; [exact H7 |].
  split; [destruct Hti as [-> | ->]; reflexivity |].
  exists inst. split; [right; right; left; reflexivity |].
  repeat split; assumption.
Qed.

(** X16: [NewProtocWithModule] fails in exactly five ways, in this
    order of steps: registering the host module fails; instantiating
    WASI fails; instantiating the module fails; the module's
    [_initialize] export fails; one of the five required exports is
    missing, the error naming the first missing one in the order
    malloc, free, protoc_init, protoc_run, protoc_destroy.  Each error
    but the last wraps its cause under a fixed prefix, and no later
    step is attempted.  In the last two ways, and only in them, the
    module exists, and it is closed as the last step. *)
Theorem NewProtocWithModule_failure ctx r (compiled : Compiled) cfg s
  (e : error) s1
  (tr : list (@setup_event Ctx S Reader Writer FSConfig Compiled)) :
  construct ctx r compiled cfg s = (inr e, s1, tr) ->
  (exists c,
      e = ("failed to register host functions: " ++ c)%string /\
      tr = [registered (Some c)]) \/
  (exists c,
      e = ("failed to instantiate WASI: " ++ c)%string /\
      tr = [registered None; SeWasi (Some c)]) \/
  (exists c,
      e = ("failed to instantiate module: " ++ c)%string /\
      tr = [registered None; SeWasi None;
            SeInstantiate (configOf cfg) (inr c)]) \/
  (exists inst c cerr,
      e = ("_initialize failed: " ++ c)%string /\
      tr = [registered None; SeWasi None;
            SeInstantiate (configOf cfg) (inl inst);
            SeInitialize (Some c); SeClose cerr]) \/
  (exists inst name cerr ti,
      first_missing inst = Some name /\
      e = ("missing export: " ++ name)%string /\
      (ti = [] \/ ti = [SeInitialize None]) /\
      tr = [registered None; SeWasi None;
            SeInstantiate (configOf cfg) (inl inst)]
           ++ ti ++ [SeClose cerr]).
Proof.
  intros H.
  destruct (NewProtocWithModule_cases _ _ _ _ _ _ _ _ H)
    as [(c & Hr & Ht) | [(c & Hr & Ht) | [(c & Hr & Ht) |
       [(inst & c & cerr & Hr & Ht) |
        [(inst & name & cerr & ti & Hm & Hr & Hti & Ht) |
         (inst & q & ti & _ & Hr & _)]]]]];
    try discriminate Hr; inversion Hr; subst.
  - left. exists c. split; reflexivity.
  - right; left. exists c. split; reflexivity.
  - do 2 right; left. exists c. split; reflexivity.
  - do 3 right; left. exists inst, c, cerr. split; reflexivity.
  - do 4 right. exists inst, name, cerr, ti. repeat split; auto.
Qed.

(** X17: the module configuration the constructor instantiates the
    module with: the name is [protoc.wasm]; the three streams are those
    of the [Config], each left unset when nil; the file-system
    configuration is the [Config]'s [FSConfig] when set, whatever [FS]
    is, else a mount of [FS] at the root, else none.  A nil [Config]
    is the empty one. *)
Theorem constructor_module_config ctx r (compiled : Compiled) cfg s
  (res : @Protoc Ctx S + error) s1
  (tr : list (@setup_event Ctx S Reader Writer FSConfig Compiled))
  (modCfg : @ModuleConfig Reader Writer FSConfig)
  (ires : @Instance Ctx S + error) :
  construct ctx r compiled cfg s = (res, s1, tr) ->
  In (SeInstantiate modCfg ires) tr ->
  let c := match cfg with Some c => c | None => emptyConfig end in
  mcName modCfg = ProtocWASMFilename /\
  mcStdin modCfg = cfgStdin c /\
  mcStdout modCfg = cfgStdout c /\
  mcStderr modCfg = cfgStderr c /\
  mcFSConfig modCfg
    = match cfgFSConfig c, cfgFS c with
      | Some f, _ => Some f
      | None, Some fs => Some (WithFSMount fs "/"%string NewFSConfig)
      | None, None => None
      end.
Proof.
  intros H Hin c.
  assert (Hmc : modCfg = configOf cfg).
  { destruct (NewProtocWithModule_cases _ _ _ _ _ _ _ _ H)
      as [(c0 & _ & Ht) | [(c0 & _ & Ht) | [(c0 & _ & Ht) |
         [(inst & c0 & cerr & _ & Ht) |
          [(inst & name & cerr & ti & _ & _ & Hti & Ht) |
           (inst & q & ti & _ & _ & Hti & Ht & _)]]]]];
      subst tr; try destruct Hti as [-> | ->]; simpl in Hin;
      repeat (destruct Hin as [Hin | Hin];
              [try discriminate Hin; try (inversion Hin; reflexivity) |]);
      contradiction Hin. }
  subst modCfg. fold c. unfold moduleConfig.
  destruct (cfgStdin c), (cfgStdout c), (cfgStderr c), (cfgFSConfig c),
    (cfgFS c); repeat split.
Qed.

Lemma NewProtoc_delegates ctx r cfg s (p : @Protoc Ctx S) s1
  (tr : list (@setup_event Ctx S Reader Writer FSConfig Compiled)) :
  NewProtoc NewFSConfig WithFSMount ProtocWASM cmdRun ctx r cfg s
    = (inl p, s1, tr) ->
  exists compiled s0 tr',
    CompileModule r ctx ProtocWASM s = (inl compiled, s0) /\
    construct ctx r compiled cfg s0 = (inl p, s1, tr') /\
    tr = SeCompile (inl compiled) :: tr'.
Proof.
  unfold NewProtoc, CompileProtoc. unfold sbind at 1 2, step, sret, fail.
  intros H.
  destruct (CompileModule r ctx ProtocWASM s) as [[compiled | e] s0] eqn:Ec;
    [| discriminate H].
  destruct (construct ctx r compiled cfg s0) as [[res s2] tr'] eqn:E.
  inversion H; subst. exists compiled, s0, tr'. repeat split; auto.
Qed.

(** X18: an instance that [NewProtoc] returns can be used at once.
    The embedded image was compiled first.  [Run] before [Init]
    refuses with the not-initialized error and touches nothing.
    Whatever sequence of [Init], [Run] and [Close] calls follows, no
    call panics, the allocations that the three methods themselves
    made (argument strings and pointer arrays) are all freed at the
    end, and the guest sees a well-formed lifecycle starting from a
    reactor that is not initialized.  Buffers of plugin callbacks
    inside the run export are not part of the methods' trace. *)
Theorem NewProtoc_instance_is_safe ctx r cfg s (p : @Protoc Ctx S) s1
  (tr : list (@setup_event Ctx S Reader Writer FSConfig Compiled)) :
  NewProtoc NewFSConfig WithFSMount ProtocWASM cmdRun ctx r cfg s
    = (inl p, s1, tr) ->
  (exists compiled tr', tr = SeCompile (inl compiled) :: tr') /\
  (forall args s2,
      Run p ctx args s2
        = (Done (1, Some "protoc not initialized, call Init() first"%string),
           s2, [])) /\
  (forall reqs s2 o s3 t,
      session p ctx reqs s2 = (o, s3, t) ->
      (exists p1, o = Done p1) /\
      outstanding t = 0 /\
      lifecycle_ok false t = true).
Proof.
  intros H.
  destruct (NewProtoc_delegates _ _ _ _ _ _ _ H)
    as (compiled & s0 & tr' & _ & Hc & ->).
  assert (Hready : initialized p = false /\ exists m, mod_ p = Some m).
  { destruct (NewProtocWithModule_cases _ _ _ _ _ _ _ _ Hc)
      as [(c & Hr & _) | [(c & Hr & _) | [(c & Hr & _) |
         [(inst & c & cerr & Hr & _) |
          [(inst & name & cerr & ti & _ & Hr & _) |
           (inst & q & ti & _ & Hr & _ & _ & Hrest)]]]]];
      try discriminate Hr.
    inversion Hr; subst q. split; [apply Hrest |].
    exists (instModule inst). apply Hrest. }
  destruct Hready as [Hinit [m Hmod]].
  split; [exists compiled, tr'; reflexivity |].
  split; [intros args s2; apply Run_requires_Init'; exact Hinit |].
  intros reqs s2 o s3 t Hs.
  destruct (session_post _ ctx reqs _ _ _ _ _ Hmod Hs)
    as (p1 & -> & _ & HP & Hok & _).
  split; [exists p1; reflexivity |].
  split; [apply outstanding_balanced; exact HP |].
  rewrite Hinit in Hok. exact Hok.
Qed.

End ConstructionFacts.

(** * The further theorems at concrete inputs *)

Open Scope string_scope.

Lemma allocString_null_terminated_witness :
  allocString Toy.ready tt "ab" Toy.small
    = (Done (uint32 8, None),
       snd (Toy.write 8 ["a"%byte; "b"%byte; x00]
              (snd (Toy.bump tt 3 Toy.small))),
       [EvMalloc (strlen "ab" + 1) (inl 8);
        EvWrite (uint32 8) (list_byte_of_string "ab" ++ [x00])%list true]).
Proof.
  apply (allocString_null_terminated Toy.ready Toy.module tt "ab" Toy.small
           8 (snd (Toy.bump tt 3 Toy.small)));
    [reflexivity | reflexivity | vm_compute; discriminate | reflexivity].
Defined.

Lemma allocBytes_outcome_witness :
  (exists ptr err s1 tr,
      allocBytes Toy.ready tt ["a"%byte] Toy.small
        = (Done (ptr, err), s1, tr) /\
      (err = None <-> ptr <> 0) /\
      outstanding tr = match err with Some _ => 0 | None => 1 end) /\
  allocBytes ToyEngine.oom tt ["a"%byte] Toy.small
    = (Done (0, Some "out of memory"), Toy.small,
       [EvMalloc (len ["a"%byte]) (inr "out of memory")]).
Proof.
  split.
  - apply (proj1 (allocBytes_outcome Toy.ready Toy.module tt ["a"%byte]
                    Toy.small eq_refl)).
  - apply (proj2 (allocBytes_outcome ToyEngine.oom Toy.module tt ["a"%byte]
                    Toy.small eq_refl) "out of memory" Toy.small).
    reflexivity.
Defined.

Lemma allocArgv_layout_witness :
  exists res tw,
    snd (allocArgv Toy.ready tt [8; 15] Toy.withName)
      = EvMalloc (4 * len [8; 15]) (inl res) :: tw /\
    32 = uint32 res /\ 32 <> 0 /\
    List.length tw = List.length [8; 15] /\
    forall i, (i < List.length [8; 15])%nat ->
      exists ok,
        nth_error tw i
          = Some (EvWrite (uint32 (32 + 4 * Z.of_nat i))
                    (PutUint32 (nth i [8; 15] 0)) ok).
Proof.
  apply (allocArgv_layout Toy.ready Toy.module tt [8; 15] Toy.withName 32
           (snd (fst (allocArgv Toy.ready tt [8; 15] Toy.withName)))
           (snd (allocArgv Toy.ready tt [8; 15] Toy.withName)));
    reflexivity.
Defined.

Lemma allocArgv_fails_only_on_malloc_witness :
  (exists s2 tr,
      allocArgv Toy.ready tt [8; 9] Toy.tight
        = (Done (uint32 8, None), s2, tr)) /\
  (0 = 0 /\
   exists r,
     malloc Toy.starved tt (len [8] * 4) Toy.small = (r, Toy.small) /\
     [EvMalloc 4 (inl 0)] = [EvMalloc (len [8] * 4) r] /\
     (r = inr "malloc returned null for argv" \/
      exists res,
        r = inl res /\ uint32 res = 0 /\
        "malloc returned null for argv" = "malloc returned null for argv")).
Proof.
  split.
  - apply (proj1 (allocArgv_fails_only_on_malloc Toy.ready Toy.module tt
                    [8; 9] Toy.tight eq_refl) 8
             (snd (Toy.bump tt 8 Toy.tight)));
      [reflexivity | vm_compute; discriminate].
  - apply (proj2 (allocArgv_fails_only_on_malloc Toy.starved Toy.module tt
                    [8] Toy.small eq_refl)
             0 "malloc returned null for argv" Toy.small
             [EvMalloc 4 (inl 0)]).
    reflexivity.
Defined.

Lemma Run_error_iff_no_status_witness :
  exists code err,
    fst (fst (Run Toy.trapping tt ["a"] Toy.small)) = Done (code, err) /\
    (forall e, err = Some e -> code = 1) /\
    (err = None <->
     exists argc argv r0,
       In (EvRun argc argv (inl r0))
          (snd (Run Toy.trapping tt ["a"] Toy.small))).
Proof.
  apply (Run_error_iff_no_status Toy.trapping Toy.module tt ["a"] Toy.small
           (fst (fst (Run Toy.trapping tt ["a"] Toy.small)))
           (snd (fst (Run Toy.trapping tt ["a"] Toy.small)))
           (snd (Run Toy.trapping tt ["a"] Toy.small)));
    reflexivity.
Defined.

Lemma Run_arguments_live_witness :
  1 = len (effective_args ["a"]) /\
  exists t1 t2,
    snd (Run Toy.ready tt ["a"] Toy.small)
      = (t1 ++ EvRun 1 10 (inl 3) :: t2)%list /\
    quiet t1 /\ quiet t2 /\
    frees t1 = [] /\ allocs t2 = [] /\
    In 10 (allocs t1) /\ Permutation (allocs t1) (frees t2).
Proof.
  apply (Run_arguments_live Toy.ready Toy.module tt ["a"] Toy.small
           (fst (fst (Run Toy.ready tt ["a"] Toy.small)))
           (snd (fst (Run Toy.ready tt ["a"] Toy.small)))
           (snd (Run Toy.ready tt ["a"] Toy.small)) 1 10 (inl 3));
    [reflexivity | reflexivity | reflexivity | vm_compute; tauto].
Defined.

Lemma Init_outcome_witness :
  exists p1 err,
    Done (Toy.refused, Some "protoc_init returned error") = Done (p1, err) /\
    (p1 = Toy.refused \/ p1 = set_initialized true Toy.refused) /\
    (err = None <-> initialized p1 = true) /\
    (forall e, err = Some e ->
       p1 = Toy.refused /\
       (exists r,
           protocInit Toy.refused tt Toy.small = (r, Toy.small) /\
           [EvInit (inl 7)] = [EvInit r] /\
           match r with
           | inr cause => e = "protoc_init failed: " ++ cause
           | inl res => int32 res <> 0 /\ e = "protoc_init returned error"
           end) /\
       forall s2, exists r2 s3 o2,
         protocInit Toy.refused tt s2 = (r2, s3) /\
         Init p1 tt s2 = (o2, s3, [EvInit r2])).
Proof.
  apply (Init_outcome Toy.refused tt Toy.small
           (Done (Toy.refused, Some "protoc_init returned error")) Toy.small
           [EvInit (inl 7)]).
  reflexivity.
Defined.

Lemma Close_resets_lifecycle_witness :
  Close ToyEngine.live tt Toy.small
    = (Done (set_initialized false ToyEngine.live, None),
       ToyEngine.shut Toy.small, [EvDestroy None; EvModClose None]) /\
  Init (set_initialized false ToyEngine.live) tt (ToyEngine.shut Toy.small)
    = (Done (set_initialized false ToyEngine.live,
             Some "protoc_init failed: module closed"),
       ToyEngine.shut Toy.small, [EvInit (inr "module closed")]) /\
  initialized (set_initialized false ToyEngine.live) = false /\
  (forall args s2,
      Run (set_initialized false ToyEngine.live) tt args s2
        = (Done (1, Some "protoc not initialized, call Init() first"),
           s2, [])) /\
  (forall s2, exists r s3 o,
      protocInit ToyEngine.live tt s2 = (r, s3) /\
      Init (set_initialized false ToyEngine.live) tt s2
        = (o, s3, [EvInit r]) /\
      (forall cause, r = inr cause ->
         o = Done (set_initialized false ToyEngine.live,
                   Some ("protoc_init failed: " ++ cause)))).
Proof.
  split; [reflexivity |]. split; [reflexivity |].
  apply (Close_resets_lifecycle ToyEngine.live tt Toy.small
           (set_initialized false ToyEngine.live) None
           (ToyEngine.shut Toy.small)
           [EvDestroy None; EvModClose None]);
    [discriminate | reflexivity].
Defined.

Lemma session_leaves_no_allocation_witness :
  (exists p1,
      fst (fst (session Toy.fresh tt ToyEngine.script Toy.withName))
        = Done p1 /\
      mod_ p1 = Some Toy.module) /\
  Permutation
    (allocs (snd (session Toy.fresh tt ToyEngine.script Toy.withName)))
    (frees (snd (session Toy.fresh tt ToyEngine.script Toy.withName))) /\
  outstanding (snd (session Toy.fresh tt ToyEngine.script Toy.withName)) = 0.
Proof.
  apply (session_leaves_no_allocation Toy.fresh Toy.module tt ToyEngine.script
           Toy.withName
           (fst (fst (session Toy.fresh tt ToyEngine.script Toy.withName)))
           (snd (fst (session Toy.fresh tt ToyEngine.script Toy.withName)))
           (snd (session Toy.fresh tt ToyEngine.script Toy.withName)));
    reflexivity.
Defined.

Lemma session_respects_lifecycle_witness :
  lifecycle_ok (initialized Toy.fresh)
    (snd (session Toy.fresh tt ToyEngine.script Toy.withName)) = true /\
  exists p1,
    fst (fst (session Toy.fresh tt ToyEngine.script Toy.withName))
      = Done p1 /\
    lifecycle_state (initialized Toy.fresh)
      (snd (session Toy.fresh tt ToyEngine.script Toy.withName))
      = initialized p1.
Proof.
  apply (session_respects_lifecycle Toy.fresh Toy.module tt ToyEngine.script
           Toy.withName
           (fst (fst (session Toy.fresh tt ToyEngine.script Toy.withName)))
           (snd (fst (session Toy.fresh tt ToyEngine.script Toy.withName)))
           (snd (session Toy.fresh tt ToyEngine.script Toy.withName)));
    reflexivity.
Defined.

Lemma callback_frame_witness :
  hostPluginCommunicate Toy.helpless tt Toy.module [0; 4; 1] Toy.withName
    = (Panic "index out of range", Toy.withName, []) /\
  9 <= len Toy.callStack /\
  List.length [1; 4; 1; 4; 0; 16; 20; 24; 28] = List.length Toy.callStack /\
  (forall i, (1 <= i)%nat ->
     nth i [1; 4; 1; 4; 0; 16; 20; 24; 28] 0 = nth i Toy.callStack 0) /\
  (status [1; 4; 1; 4; 0; 16; 20; 24; 28] = -1 \/
   status [1; 4; 1; 4; 0; 16; 20; 24; 28] = 0 \/
   status [1; 4; 1; 4; 0; 16; 20; 24; 28] = 1).
Proof.
  split.
  - apply (proj1 (callback_frame Toy.helpless tt Toy.module [0; 4; 1]
                    Toy.withName)).
    vm_compute. reflexivity.
  - apply (proj2 (callback_frame Toy.helpless tt Toy.module Toy.callStack
                    Toy.withName)
             [1; 4; 1; 4; 0; 16; 20; 24; 28]
             (snd (fst (hostPluginCommunicate Toy.helpless tt Toy.module
                          Toy.callStack Toy.withName)))
             (snd (hostPluginCommunicate Toy.helpless tt Toy.module
                     Toy.callStack Toy.withName))).
    reflexivity.
Defined.

Lemma callback_ownership_witness :
  quiet (snd (hostPluginCommunicate Toy.ready tt Toy.module Toy.callStack
                Toy.withName)) /\
  (List.length
     (filter is_communicate
        (snd (hostPluginCommunicate Toy.ready tt Toy.module Toy.callStack
                Toy.withName))) <= 1)%nat /\
  (status [0; 4; 1; 4; 0; 16; 20; 24; 28] = 0 ->
   exists ptr,
     ptr <> 0 /\
     allocs (snd (hostPluginCommunicate Toy.ready tt Toy.module
                    Toy.callStack Toy.withName)) = [ptr] /\
     frees (snd (hostPluginCommunicate Toy.ready tt Toy.module
                   Toy.callStack Toy.withName)) = []) /\
  (status [0; 4; 1; 4; 0; 16; 20; 24; 28] = -1 ->
   outstanding (snd (hostPluginCommunicate Toy.ready tt Toy.module
                       Toy.callStack Toy.withName)) = 0) /\
  (outstanding (snd (hostPluginCommunicate Toy.ready tt Toy.module
                       Toy.callStack Toy.withName)) = 0 \/
   outstanding (snd (hostPluginCommunicate Toy.ready tt Toy.module
                       Toy.callStack Toy.withName)) = 1).
Proof.
  apply (callback_ownership Toy.ready tt Toy.module Toy.callStack
           Toy.withName [0; 4; 1; 4; 0; 16; 20; 24; 28]
           (snd (fst (hostPluginCommunicate Toy.ready tt Toy.module
                        Toy.callStack Toy.withName)))).
  reflexivity.
Defined.

Lemma callback_with_default_handler_witness :
  Stdin (buildCmd tt "plug" true []) = [] /\
  Args (buildCmd tt "plug" true []) = ["plug"] /\
  exists out s3 tw r,
    hostPluginCommunicate ToyEngine.spawning tt Toy.module Toy.callStack
      Toy.withName
      = (Done out, s3,
         (EvCommunicate "plug" true [] r
            :: [EvMalloc 25 (inl 32);
                EvWrite 32 (list_byte_of_string "plug: exit status 1: boom")
                  true] ++ tw)%list) /\
    exists msg,
      msg = "plug: exit status 1: boom" /\
      r = ([], Some msg) /\ status out = 1 /\
      In (EvWrite 32 (list_byte_of_string msg) true)
         [EvMalloc 25 (inl 32);
          EvWrite 32 (list_byte_of_string "plug: exit status 1: boom") true] /\
      writes_of [(24, PutUint32 32); (28, PutUint32 (uint32 (strlen msg)));
                 (16, PutUint32 0); (20, PutUint32 0)] tw.
Proof.
  apply (callback_with_default_handler ToyEngine.spawning tt Toy.module
           Toy.callStack Toy.withName ToyEngine.failingOS
           (list_byte_of_string "plug") [] (Some "exit status 1") []
           (list_byte_of_string "boom") Toy.withName (32, None)
           (snd (fst (allocBytes ToyEngine.spawning tt
                        (list_byte_of_string "plug: exit status 1: boom")
                        Toy.withName)))
           [EvMalloc 25 (inl 32);
            EvWrite 32 (list_byte_of_string "plug: exit status 1: boom") true]);
    [reflexivity | vm_compute; discriminate | reflexivity | reflexivity
    | reflexivity | reflexivity].
Defined.

Lemma NewProtocWithModule_ready_witness :
  initialized (ToyEngine.built Toy.echo) = false /\
  pluginHandler (ToyEngine.built Toy.echo) = Toy.echo /\
  filter is_close
    (snd (NewProtocWithModule [] ToyEngine.mount ToyEngine.quietOS tt
            (ToyEngine.runtime ToyEngine.full) ToyEngine.image
            (Some ToyEngine.config) Toy.small)) = [] /\
  exists inst,
    In (SeInstantiate (moduleConfig [] ToyEngine.mount ToyEngine.config)
          (inl inst))
       (snd (NewProtocWithModule [] ToyEngine.mount ToyEngine.quietOS tt
               (ToyEngine.runtime ToyEngine.full) ToyEngine.image
               (Some ToyEngine.config) Toy.small)) /\
    first_missing inst = None /\
    mod_ (ToyEngine.built Toy.echo) = Some (instModule inst) /\
    exp_malloc inst = Some (malloc (ToyEngine.built Toy.echo)) /\
    exp_free inst = Some (free (ToyEngine.built Toy.echo)) /\
    exp_protoc_init inst = Some (protocInit (ToyEngine.built Toy.echo)) /\
    exp_protoc_run inst = Some (protocRun (ToyEngine.built Toy.echo)) /\
    exp_protoc_destroy inst = protocDestroy (ToyEngine.built Toy.echo).
Proof.
  apply (NewProtocWithModule_ready [] ToyEngine.mount ToyEngine.quietOS tt
           (ToyEngine.runtime ToyEngine.full) ToyEngine.image
           (Some ToyEngine.config) Toy.small (ToyEngine.built Toy.echo)
           Toy.small).
  reflexivity.
Defined.

Lemma NewProtocWithModule_failure_witness :
  (exists c,
      "missing export: free" = "failed to register host functions: " ++ c /\
      snd (NewProtocWithModule [] ToyEngine.mount ToyEngine.quietOS tt
             (ToyEngine.runtime ToyEngine.lacking) ToyEngine.image
             (Some ToyEngine.config) Toy.small)
        = [SeHostModule ImportModuleProtoc ImportPluginCommunicate
             (repeat ValueTypeI32 9) [ValueTypeI32] (Some c)]) \/
  (exists c,
      "missing export: free" = "failed to instantiate WASI: " ++ c /\
      snd (NewProtocWithModule [] ToyEngine.mount ToyEngine.quietOS tt
             (ToyEngine.runtime ToyEngine.lacking) ToyEngine.image
             (Some ToyEngine.config) Toy.small)
        = [SeHostModule ImportModuleProtoc ImportPluginCommunicate
             (repeat ValueTypeI32 9) [ValueTypeI32] None;
           SeWasi (Some c)]) \/
  (exists c,
      "missing export: free" = "failed to instantiate module: " ++ c /\
      snd (NewProtocWithModule [] ToyEngine.mount ToyEngine.quietOS tt
             (ToyEngine.runtime ToyEngine.lacking) ToyEngine.image
             (Some ToyEngine.config) Toy.small)
        = [SeHostModule ImportModuleProtoc ImportPluginCommunicate
             (repeat ValueTypeI32 9) [ValueTypeI32] None;
           SeWasi None;
           SeInstantiate (moduleConfig [] ToyEngine.mount ToyEngine.config)
             (inr c)]) \/
  (exists inst c cerr,
      "missing export: free" = "_initialize failed: " ++ c /\
      snd (NewProtocWithModule [] ToyEngine.mount ToyEngine.quietOS tt
             (ToyEngine.runtime ToyEngine.lacking) ToyEngine.image
             (Some ToyEngine.config) Toy.small)
        = [SeHostModule ImportModuleProtoc ImportPluginCommunicate
             (repeat ValueTypeI32 9) [ValueTypeI32] None;
           SeWasi None;
           SeInstantiate (moduleConfig [] ToyEngine.mount ToyEngine.config)
             (inl inst);
           SeInitialize (Some c); SeClose cerr]) \/
  (exists inst name cerr ti,
      first_missing inst = Some name /\
      "missing export: free" = "missing export: " ++ name /\
      (ti = [] \/ ti = [SeInitialize None]) /\
      snd (NewProtocWithModule [] ToyEngine.mount ToyEngine.quietOS tt
             (ToyEngine.runtime ToyEngine.lacking) ToyEngine.image
             (Some ToyEngine.config) Toy.small)
        = ([SeHostModule ImportModuleProtoc ImportPluginCommunicate
              (repeat ValueTypeI32 9) [ValueTypeI32] None;
            SeWasi None;
            SeInstantiate (moduleConfig [] ToyEngine.mount ToyEngine.config)
              (inl inst)]
           ++ ti ++ [SeClose cerr])%list).
Proof.
  apply (NewProtocWithModule_failure [] ToyEngine.mount ToyEngine.quietOS
           tt (ToyEngine.runtime ToyEngine.lacking) ToyEngine.image
           (Some ToyEngine.config) Toy.small "missing export: free"
           Toy.small).
  reflexivity.
Defined.

Lemma constructor_module_config_witness :
  mcName (moduleConfig [] ToyEngine.mount ToyEngine.config)
    = ProtocWASMFilename /\
  mcStdin (moduleConfig [] ToyEngine.mount ToyEngine.config) = None /\
  mcStdout (moduleConfig [] ToyEngine.mount ToyEngine.config) = Some "out" /\
  mcStderr (moduleConfig [] ToyEngine.mount ToyEngine.config) = None /\
  mcFSConfig (moduleConfig [] ToyEngine.mount ToyEngine.config)
    = Some (ToyEngine.mount "memfs" "/" []).
Proof.
  apply (constructor_module_config [] ToyEngine.mount ToyEngine.quietOS tt
           (ToyEngine.runtime ToyEngine.full) ToyEngine.image
           (Some ToyEngine.config) Toy.small
           (inl (ToyEngine.built Toy.echo)) Toy.small _
           (moduleConfig [] ToyEngine.mount ToyEngine.config)
           (inl ToyEngine.full) eq_refl).
  right. right. left. reflexivity.
Defined.

Lemma NewProtoc_instance_is_safe_witness :
  (exists compiled tr',
      snd (NewProtoc [] ToyEngine.mount ToyEngine.image ToyEngine.quietOS tt
             (ToyEngine.runtime ToyEngine.full) None Toy.small)
        = (SeCompile (inl compiled) :: tr')%list) /\
  (forall args s2,
      Run (ToyEngine.built (DefaultPluginHandler ToyEngine.quietOS)) tt args s2
        = (Done (1, Some "protoc not initialized, call Init() first"),
           s2, [])) /\
  (forall reqs s2 o s3 t,
      session (ToyEngine.built (DefaultPluginHandler ToyEngine.quietOS)) tt
        reqs s2 = (o, s3, t) ->
      (exists p1, o = Done p1) /\
      outstanding t = 0 /\
      lifecycle_ok false t = true).
Proof.
  apply (NewProtoc_instance_is_safe [] ToyEngine.mount ToyEngine.image
           ToyEngine.quietOS tt (ToyEngine.runtime ToyEngine.full) None
           Toy.small
           (ToyEngine.built (DefaultPluginHandler ToyEngine.quietOS))
           Toy.small).
  reflexivity.
Defined.
